(** * ChessGPT match engine ([src/eval/eval.py]): shallow embedding and
    verification of the turn-resolution engine, the match orchestrator,
    the random opening initialiser and the result adjudicator.

    The chess rules (python-chess) and the agents (players.py) are external
    to [eval.py]; they enter the development as a record of operations
    ([RulesOracle]) and as a record of methods ([Player]). Agents and the
    random generator are effectful: they read and update an explicit world
    state [W]. *)

From Stdlib Require Import ZArith QArith Qminmax String Ascii List DecimalString Lia.
From stdpp Require Import base list strings gmap.
Import ListNotations.

Local Open Scope string_scope.
Local Open Scope Z_scope.

(** ** Python [str] operations used by [eval.py] *)

Module Str.

(** Characters on which [str.split()] (no argument) separates, ASCII range:
    tab, LF, VT, FF, CR, the separators FS/GS/RS/US and the space. *)
Definition is_whitespace (c : ascii) : bool :=
  let n := nat_of_ascii c in
  ((9 <=? n)%nat && (n <=? 13)%nat) || ((28 <=? n)%nat && (n <=? 32)%nat).

(** [c in s] for a one-character [c]. *)
Fixpoint contains_char (c : ascii) (s : string) : bool :=
  match s with
  | EmptyString => false
  | String a s' => Ascii.eqb a c || contains_char c s'
  end.

(** [s.startswith(c)] for a one-character [c]. *)
Definition startswith (c : ascii) (s : string) : bool :=
  match s with
  | EmptyString => false
  | String a _ => Ascii.eqb a c
  end.

(** [s.split(c)] for a one-character separator: never empty. *)
Fixpoint split_char (c : ascii) (s : string) : list string :=
  match s with
  | EmptyString => [EmptyString]
  | String a s' =>
      if Ascii.eqb a c then EmptyString :: split_char c s'
      else match split_char c s' with
           | h :: t => String a h :: t
           | [] => [String a EmptyString]
           end
  end.

Definition push_token (t : string) (ts : list string) : list string :=
  match t with
  | EmptyString => ts
  | _ => t :: ts
  end.

(** One pass from the right: the token being read at the head of [s] and
    the tokens after it. *)
Fixpoint scan_ws (s : string) : string * list string :=
  match s with
  | EmptyString => (EmptyString, [])
  | String a s' =>
      let (t, ts) := scan_ws s' in
      if is_whitespace a then (EmptyString, push_token t ts)
      else (String a t, ts)
  end.

(** [s.split()]: maximal runs of non-whitespace characters. *)
Definition split_ws (s : string) : list string :=
  let (t, ts) := scan_ws s in push_token t ts.

(** [str(n)] for a non-negative integer. *)
Definition of_nat (n : nat) : string :=
  NilEmpty.string_of_uint (Nat.to_uint n).

(** [str(x)] inside an f-string for an optional text. *)
Definition of_optional (x : option string) : string :=
  match x with
  | Some s => s
  | None => "None"
  end.

Definition newline : string := String (ascii_of_nat 10) EmptyString.

End Str.

(** ** Exceptions and results *)

Inductive exn : Type :=
| KeyError (key : string)
| Exception (msg : string).

Inductive res (A : Type) : Type :=
| Ret (a : A)
| Raise (e : exn).
Arguments Ret {A} a.
Arguments Raise {A} e.

(** ** Scores and the result row *)

(** A score is whatever Python value [record_results] stores: the integers
    0 and 1, a piece of the oracle's result text, or a float. Both float
    literals of the source (1 / 2 and -1e10) are exact in binary64, so a
    rational carries them. *)
Inductive score : Type :=
| ScoreInt (z : Z)
| ScoreStr (s : string)
| ScoreFloat (q : Q).

(** [info_dict], the row [record_results] writes; [game_id] and
    [time_taken] come from the wall clock and the random generator and are
    left out. *)
Record info_dict : Type := {
  transcript : string;
  result_text : string;
  player_one_title : string;
  player_two_title : string;
  player_one_time : option string;
  player_two_time : option string;
  player_one_score : score;
  player_two_score : score;
  row_player_one_illegal_moves : Z;
  row_player_two_illegal_moves : Z;
  row_player_one_legal_moves : Z;
  row_player_two_legal_moves : Z;
  row_player_one_resignation : bool;
  row_player_two_resignation : bool;
  row_player_one_failed_to_find_legal_move : bool;
  row_player_two_failed_to_find_legal_move : bool;
  game_title : string;
  number_of_moves : nat;
  row_total_moves : Z;
  row_illegal_moves : Z;
}.

(** ** The rules oracle (python-chess [chess.Board]) *)

Record RulesOracle : Type := {
  Board : Type;
  Move : Type;
  Move_eq_dec : EqDecision Move;
  new_board : Board;                          (* chess.Board() *)
  reset : Board -> Board;                     (* board.reset() *)
  legal_moves : Board -> list Move;           (* list(board.legal_moves) *)
  parse_san : Board -> string -> option Move; (* None: parse_san raises *)
  san : Board -> Move -> string;              (* board.san(move) *)
  push : Board -> Move -> Board;              (* board.push(move) *)
  is_game_over : Board -> bool;
  result : Board -> string;                   (* board.result() *)
  fullmove_number : Board -> nat;
}.
#[export] Existing Instance Move_eq_dec.

(** Module constants of [eval.py]. *)
Definition NANOGPT : bool := true.
Definition MAX_MOVES : Z := if NANOGPT then 89 else 1000.

Section Engine.

Context (chess : RulesOracle).
Context (W : Type).
(** [random.choice] draws an index below the length of its argument. *)
Context (rand_index : W -> nat -> nat * W).

Abbreviation Board := (Board chess).
Abbreviation Move := (Move chess).

(** An agent: [get_move(board, game_state, temperature)] may answer no text,
    and may consult and change the world; [get_config()] is a dict. *)
Record Player : Type := {
  get_move : W -> Board -> string -> Q -> option string * W;
  get_config : gmap string string;
}.

(** What the program can change outside its own variables. *)
Record Sys : Type := {
  world : W;
  illegal_moves_file : string;   (* gpt-3.5-turbo-instruct-illegal-moves.txt *)
  csv_rows : list info_dict;     (* rows appended by record_results *)
}.

Definition set_world (w : W) (s : Sys) : Sys :=
  {| world := w; illegal_moves_file := illegal_moves_file s; csv_rows := csv_rows s |}.
Definition append_illegal_moves_file (t : string) (s : Sys) : Sys :=
  {| world := world s; illegal_moves_file := illegal_moves_file s ++ t;
     csv_rows := csv_rows s |}.
Definition append_csv_row (d : info_dict) (s : Sys) : Sys :=
  {| world := world s; illegal_moves_file := illegal_moves_file s;
     csv_rows := csv_rows s ++ [d] |}.

(** State and exceptions: a raised exception keeps the state reached. *)
Definition M (A : Type) : Type := Sys -> res A * Sys.

Definition ret {A} (a : A) : M A := fun s => (Ret a, s).
Definition raise {A} (e : exn) : M A := fun s => (Raise e, s).
Definition bind {A B} (c : M A) (k : A -> M B) : M B :=
  fun s => match c s with
           | (Ret a, s') => k a s'
           | (Raise e, s') => (Raise e, s')
           end.

Notation "'do' x <- c ; k" := (bind c (fun x => k))
  (at level 10, x pattern, c at level 100, k at level 200).
Notation "c ;; k" := (bind c (fun _ => k))
  (at level 100, k at level 200, right associativity).

Definition modify (f : Sys -> Sys) : M unit := fun s => (Ret tt, f s).

(** [d[key]] on a dict. *)
Definition dict_get (d : gmap string string) (key : string) : M string :=
  match d !! key with
  | Some v => ret v
  | None => raise (KeyError key)
  end.

Definition call_get_move (player : Player) (board : Board) (game_state : string)
    (temperature : Q) : M (option string) :=
  fun s => let (r, w) := get_move player (world s) board game_state temperature in
           (Ret r, set_world w s).

(** ** [LegalMoveResponse] and [get_legal_move] *)

Record LegalMoveResponse : Type := {
  move_san : option string;
  move_uci : option Move;
  attempts : nat;
  is_resignation : bool;
  is_illegal_move : bool;
}.

(** [min(((attempt / max_attempts) * 1) + 0.001, 0.5)], as an exact rational
    (the agent receives the nearest binary64 value). *)
Definition urgency_hint (attempt max_attempts : nat) : Q :=
  Qred (Qmin ((inject_Z (Z.of_nat attempt) / inject_Z (Z.of_nat max_attempts)) * 1
              + (1 # 1000))
             (1 # 2)).

Definition is_result_marker (s : string) : bool :=
  String.eqb s "1-0" || String.eqb s "0-1" || String.eqb s "1/2-1/2".

(** [board.parse_san(move_san)] under [try]: python-chess raises on text it
    cannot read and, through its regular expression, on [None]; both land in
    the [except Exception] handler. On success: the text read and the move. *)
Definition try_parse_san (board : Board) (text : option string)
    : option (string * Move) :=
  match text with
  | Some s =>
      match parse_san chess board s with
      | Some uci => Some (s, uci)
      | None => None
      end
  | None => None
  end.

(** The [except] handler, up to its [continue]. *)
Definition on_parse_error (player : Player) (game_state : string)
    (text : option string) : M unit :=
  do model <- dict_get (get_config player) "model";
  if String.eqb model "gpt-3.5-turbo-instruct"
  then modify (append_illegal_moves_file
                 (game_state ++ Str.newline ++ Str.of_optional text ++ Str.newline))
  else ret tt.

Definition normalize_san (s : string) : string :=
  if negb (Str.startswith " " s) then " " ++ s else s.

(** The three [LegalMoveResponse(...)] built by [get_legal_move]. *)
Definition resignation_response (attempt : nat) : LegalMoveResponse :=
  {| move_san := None; move_uci := None; attempts := attempt;
     is_resignation := true; is_illegal_move := false |}.

Definition legal_response (text : string) (uci : Move) (attempt : nat)
    : LegalMoveResponse :=
  {| move_san := Some text; move_uci := Some uci; attempts := attempt;
     is_resignation := false; is_illegal_move := false |}.

Definition exhausted_response (max_attempts : nat) : LegalMoveResponse :=
  {| move_san := None; move_uci := None; attempts := max_attempts;
     is_resignation := false; is_illegal_move := true |}.

Definition answers_result_marker (text : option string) : bool :=
  match text with
  | Some s => is_result_marker s
  | None => false
  end.

(** The [for attempt in range(max_attempts)] loop from index [attempt] on,
    with [remaining] indices left, and the code after the loop. *)
Fixpoint get_legal_move_from (player : Player) (board : Board) (game_state : string)
    (max_attempts : nat) (remaining attempt : nat) : M LegalMoveResponse :=
  match remaining with
  | O => ret (exhausted_response max_attempts)
  | S remaining' =>
      do text <- call_get_move player board game_state
                   (urgency_hint attempt max_attempts);
      if answers_result_marker text
      then ret (resignation_response attempt)
      else
        match try_parse_san board text with
        | None =>
            on_parse_error player game_state text ;;
            get_legal_move_from player board game_state max_attempts
              remaining' (S attempt)
        | Some (s, uci) =>
            if bool_decide (uci ∈ legal_moves chess board)
            then ret (legal_response (normalize_san s) uci attempt)
            else get_legal_move_from player board game_state max_attempts
                   remaining' (S attempt)
        end
  end.

Definition get_legal_move (player : Player) (board : Board) (game_state : string)
    (player_one : bool) (max_attempts : nat) : M LegalMoveResponse :=
  get_legal_move_from player board game_state max_attempts max_attempts 0.

(** The three shapes a response can have. *)
Definition legal_move_shape (r : LegalMoveResponse) : bool :=
  match move_san r, move_uci r with
  | Some _, Some _ => negb (is_resignation r) && negb (is_illegal_move r)
  | _, _ => false
  end.

Definition resignation_shape (r : LegalMoveResponse) : bool :=
  match move_san r, move_uci r with
  | None, None => is_resignation r && negb (is_illegal_move r)
  | _, _ => false
  end.

Definition exhaustion_shape (r : LegalMoveResponse) : bool :=
  match move_san r, move_uci r with
  | None, None => negb (is_resignation r) && is_illegal_move r
  | _, _ => false
  end.

Definition exactly_one (a b c : bool) : bool :=
  (a && negb b && negb c) || (negb a && b && negb c) || (negb a && negb b && c).

(** ** [play_turn] *)

(** The four arms of the [if]/[elif]/[else] chain of [play_turn], named after
    what each prints. *)
Inductive turn_branch : Type :=
| ResignedBranch          (* "... resigned with result: ..." *)
| ExhaustedBranch         (* "Game over: 5 consecutive illegal moves ..." *)
| NoMoveBranch            (* "Game over: ... failed to find a legal move" *)
| MoveBranch (san_text : string) (uci : Move).

Definition play_turn_branch (r : LegalMoveResponse) : turn_branch :=
  if is_resignation r then ResignedBranch
  else if is_illegal_move r then ExhaustedBranch
  else match move_san r, move_uci r with
       | Some s, Some m => MoveBranch s m
       | _, _ => NoMoveBranch
       end.

(** What [play_turn] hands back, with the board it may have pushed on. *)
Record TurnResult : Type := {
  turn_board : Board;
  turn_game_state : string;
  turn_resignation : bool;
  turn_failed_to_find_legal_move : bool;
  turn_illegal_moves : nat;
}.

Definition play_turn (player : Player) (board : Board) (game_state : string)
    (player_one : bool) : M TurnResult :=
  do r <- get_legal_move player board game_state player_one 5;
  let '(board', game_state') :=
    match play_turn_branch r with
    | MoveBranch s m => (push chess board m, game_state ++ s)
    | _ => (board, game_state)
    end in
  ret {| turn_board := board'; turn_game_state := game_state';
         turn_resignation := is_resignation r;
         turn_failed_to_find_legal_move := is_illegal_move r;
         turn_illegal_moves := attempts r |}.

(** ** [initialize_game_with_random_moves] *)

Definition MAX_INIT_ATTEMPTS : nat := 5.

(** The variables one attempt works on. *)
Record OpeningVars : Type := {
  opening_board : Board;
  opening_game_state : string;
  opening_moves : list Move;
}.

(** [random.choice(moves)]; the index drawn is reduced below the length. *)
Definition random_choice (moves : list Move) : M (option Move) :=
  fun s =>
    match moves with
    | [] => (Ret None, s)
    | m0 :: _ =>
        let (i, w) := rand_index (world s) (length moves) in
        (Ret (Some (nth (i mod length moves) moves m0)), set_world w s)
    end.

(** Body of [for player in range(2)], entered with [moves] just computed
    non-empty and [move] drawn from it. *)
Definition opening_append (moveIdx player : nat) (game_state : string)
    (moveString : string) : string :=
  let game_state := if (1 <? moveIdx)%nat || (player =? 1)%nat
                    then game_state ++ " " else game_state in
  game_state ++ (if (player =? 0)%nat
                 then Str.of_nat moveIdx ++ ". " ++ moveString
                 else moveString).

Definition opening_ply (moveIdx player : nat) (v : OpeningVars) : M OpeningVars :=
  let moves := legal_moves chess (opening_board v) in
  do choice <- random_choice moves;
  match choice with
  | None =>                             (* [if not moves: break] *)
      ret {| opening_board := opening_board v;
             opening_game_state := opening_game_state v;
             opening_moves := moves |}
  | Some move =>
      let moveString := san chess (opening_board v) move in
      ret {| opening_board := push chess (opening_board v) move;
             opening_game_state :=
               opening_append moveIdx player (opening_game_state v) moveString;
             opening_moves := moves |}
  end.

Definition no_moves (v : OpeningVars) : bool :=
  match opening_moves v with [] => true | _ => false end.

(** [for player in range(2)] with its [break]. *)
Definition opening_full_move (moveIdx : nat) (v : OpeningVars) : M OpeningVars :=
  do v0 <- opening_ply moveIdx 0 v;
  if no_moves v0 then ret v0 else opening_ply moveIdx 1 v0.

(** [for moveIdx in range(1, randomize_opening_moves + 1)] from [moveIdx] on,
    with the [break] that follows the inner loop. *)
Fixpoint opening_moves_from (remaining moveIdx : nat) (v : OpeningVars)
    : M OpeningVars :=
  match remaining with
  | O => ret v
  | S remaining' =>
      do v' <- opening_full_move moveIdx v;
      if no_moves v' then ret v'
      else opening_moves_from remaining' (S moveIdx) v'
  end.

(** One pass of [for attempt in range(MAX_INIT_ATTEMPTS)] up to, and not
    including, its [if moves: break]. *)
Definition opening_attempt (board : Board) (initial_game_state : string)
    (randomize_opening_moves : Z) : M OpeningVars :=
  opening_moves_from (Z.to_nat randomize_opening_moves) 1
    {| opening_board := reset chess board;
       opening_game_state := initial_game_state;
       opening_moves := [] |}.

(** The attempt loop with its [else] clause. *)
Fixpoint initialize_attempts (remaining : nat) (board : Board)
    (initial_game_state : string) (randomize_opening_moves : Z)
    : M (string * Board) :=
  match remaining with
  | O => raise (Exception "Failed to initialize the game after maximum attempts.")
  | S remaining' =>
      do v <- opening_attempt board initial_game_state randomize_opening_moves;
      if no_moves v
      then initialize_attempts remaining' (opening_board v) initial_game_state
             randomize_opening_moves
      else ret (opening_game_state v, opening_board v)
  end.

Definition initialize_game_with_random_moves (board : Board)
    (initial_game_state : string) (randomize_opening_moves : Z)
    : M (string * Board) :=
  initialize_attempts MAX_INIT_ATTEMPTS board initial_game_state
    randomize_opening_moves.

(** [n] attempts in a row, each one started on the board the one before
    left, each one ended with [moves] empty; from board [b] and state [s] to
    board [b'] and state [s']. *)
Inductive failed_attempts (initial_game_state : string)
    (randomize_opening_moves : Z)
    : Board -> Sys -> nat -> Board -> Sys -> Prop :=
| failed_none b s :
    failed_attempts initial_game_state randomize_opening_moves b s 0 b s
| failed_next b s v s1 n b' s' :
    opening_attempt b initial_game_state randomize_opening_moves s = (Ret v, s1) ->
    no_moves v = true ->
    failed_attempts initial_game_state randomize_opening_moves
      (opening_board v) s1 n b' s' ->
    failed_attempts initial_game_state randomize_opening_moves b s (S n) b' s'.

(** ** [record_results] *)

(** One half of [get_player_titles_and_time]: title and time of one player. *)
Definition title_and_time (config : gmap string string)
    : M (string * option string) :=
  match config !! "model" with
  | Some model => ret (model, None)
  | None =>
      do skill_level <- dict_get config "skill_level";
      do play_time <- dict_get config "play_time";
      ret ("stockfish_" ++ skill_level, Some play_time)
  end.

Definition get_player_titles_and_time (player_one player_two : Player)
    : M (string * string * option string * option string) :=
  do (title_one, time_one) <- title_and_time (get_config player_one);
  do (title_two, time_two) <- title_and_time (get_config player_two);
  ret (title_one, title_two, time_one, time_two).

(** Lines 49-70: result text and the two scores. *)
Definition score_resolution (board : Board)
    (player_one_resignation player_two_resignation : bool)
    (player_one_failed_to_find_legal_move player_two_failed_to_find_legal_move : bool)
    : string * score * score :=
  if player_one_resignation || player_one_failed_to_find_legal_move
  then ("0-1", ScoreInt 0, ScoreInt 1)
  else if player_two_resignation || player_two_failed_to_find_legal_move
  then ("1-0", ScoreInt 1, ScoreInt 0)
  else
    let result := result chess board in
    if Str.contains_char "-" result
    then (result,
          ScoreStr (nth 0 (Str.split_char "-" result) ""),
          ScoreStr (nth 1 (Str.split_char "-" result) ""))
    else if String.eqb result "*"
    then (result, ScoreFloat (1 # 2), ScoreFloat (1 # 2))
    else (result, ScoreFloat (-10000000000 # 1), ScoreFloat (-10000000000 # 1)).

Definition record_results (board : Board) (player_one player_two : Player)
    (game_state : string)
    (player_one_illegal_moves player_two_illegal_moves : Z)
    (player_one_legal_moves player_two_legal_moves : Z)
    (player_one_resignation player_two_resignation : bool)
    (player_one_failed_to_find_legal_move player_two_failed_to_find_legal_move : bool)
    (total_moves illegal_moves : Z) : M unit :=
  do (title_one, title_two, time_one, time_two) <-
    get_player_titles_and_time player_one player_two;
  let '(result, score_one, score_two) :=
    score_resolution board player_one_resignation player_two_resignation
      player_one_failed_to_find_legal_move player_two_failed_to_find_legal_move in
  modify (append_csv_row
    {| transcript := game_state;
       result_text := result;
       player_one_title := title_one;
       player_two_title := title_two;
       player_one_time := time_one;
       player_two_time := time_two;
       player_one_score := score_one;
       player_two_score := score_two;
       row_player_one_illegal_moves := player_one_illegal_moves;
       row_player_two_illegal_moves := player_two_illegal_moves;
       row_player_one_legal_moves := player_one_legal_moves;
       row_player_two_legal_moves := player_two_legal_moves;
       row_player_one_resignation := player_one_resignation;
       row_player_two_resignation := player_two_resignation;
       row_player_one_failed_to_find_legal_move := player_one_failed_to_find_legal_move;
       row_player_two_failed_to_find_legal_move := player_two_failed_to_find_legal_move;
       game_title := title_one ++ " vs. " ++ title_two;
       number_of_moves := fullmove_number chess board;
       row_total_moves := total_moves;
       row_illegal_moves := illegal_moves |}).

(** ** [play_game] *)

(** The local variables of one game. *)
Record GameVars : Type := {
  board : Board;
  game_state : string;
  player_one_illegal_moves : Z;
  player_two_illegal_moves : Z;
  player_one_legal_moves : Z;
  player_two_legal_moves : Z;
  player_one_resignation : bool;
  player_two_resignation : bool;
  player_one_failed_to_find_legal_move : bool;
  player_two_failed_to_find_legal_move : bool;
  total_moves : Z;
  illegal_moves : Z;
}.

Definition initial_vars (board : Board) (game_state : string) : GameVars :=
  {| board := board; game_state := game_state;
     player_one_illegal_moves := 0; player_two_illegal_moves := 0;
     player_one_legal_moves := 0; player_two_legal_moves := 0;
     player_one_resignation := false; player_two_resignation := false;
     player_one_failed_to_find_legal_move := false;
     player_two_failed_to_find_legal_move := false;
     total_moves := 0; illegal_moves := 0 |}.

(** Lines 337-349: the counters and the move number, before either turn. *)
Definition begin_full_move (v : GameVars) : GameVars :=
  let current_move_num := Str.of_nat (fullmove_number chess (board v)) ++ "." in
  {| board := board v;
     game_state :=
       (if negb (fullmove_number chess (board v) =? 1)%nat
        then game_state v ++ " " else game_state v) ++ current_move_num;
     player_one_illegal_moves := player_one_illegal_moves v;
     player_two_illegal_moves := player_two_illegal_moves v;
     player_one_legal_moves := player_one_legal_moves v + 1;
     player_two_legal_moves := player_two_legal_moves v + 1;
     player_one_resignation := player_one_resignation v;
     player_two_resignation := player_two_resignation v;
     player_one_failed_to_find_legal_move := player_one_failed_to_find_legal_move v;
     player_two_failed_to_find_legal_move := player_two_failed_to_find_legal_move v;
     total_moves := total_moves v + 1;
     illegal_moves := illegal_moves v |}.

(** Lines 351-359: the assignments after player one's [play_turn]. *)
Definition after_turn_one (v : GameVars) (t : TurnResult) : GameVars :=
  let illegal_moves_one := Z.of_nat (turn_illegal_moves t) in
  {| board := turn_board t;
     game_state := turn_game_state t;
     player_one_illegal_moves := player_one_illegal_moves v + illegal_moves_one;
     player_two_illegal_moves := player_two_illegal_moves v;
     player_one_legal_moves :=
       if negb (illegal_moves_one =? 0)
       then player_one_legal_moves v - 1 else player_one_legal_moves v;
     player_two_legal_moves := player_two_legal_moves v;
     player_one_resignation := turn_resignation t;
     player_two_resignation := player_two_resignation v;
     player_one_failed_to_find_legal_move := turn_failed_to_find_legal_move t;
     player_two_failed_to_find_legal_move := player_two_failed_to_find_legal_move v;
     total_moves := total_moves v;
     illegal_moves := illegal_moves v |}.

(** Lines 367-375: the assignments after player two's [play_turn]. *)
Definition after_turn_two (v : GameVars) (t : TurnResult) : GameVars :=
  let illegal_moves_two := Z.of_nat (turn_illegal_moves t) in
  {| board := turn_board t;
     game_state := turn_game_state t;
     player_one_illegal_moves := player_one_illegal_moves v;
     player_two_illegal_moves := player_two_illegal_moves v + illegal_moves_two;
     player_one_legal_moves := player_one_legal_moves v;
     player_two_legal_moves :=
       if negb (illegal_moves_two =? 0)
       then player_two_legal_moves v - 1 else player_two_legal_moves v;
     player_one_resignation := player_one_resignation v;
     player_two_resignation := turn_resignation t;
     player_one_failed_to_find_legal_move := player_one_failed_to_find_legal_move v;
     player_two_failed_to_find_legal_move := turn_failed_to_find_legal_move t;
     total_moves := total_moves v;
     illegal_moves := illegal_moves v |}.

(** The two [if ...: break] tests after a turn. *)
Definition stops_after_turn_one (v : GameVars) : bool :=
  is_game_over chess (board v) || player_one_resignation v
  || player_one_failed_to_find_legal_move v.
Definition stops_after_turn_two (v : GameVars) : bool :=
  is_game_over chess (board v) || player_two_resignation v
  || player_two_failed_to_find_legal_move v.

(** How one pass through the body of the [while] loop ends. *)
Inductive flow : Type :=
| Break (v : GameVars)
| Continue (v : GameVars).

(** The body of [while not board.is_game_over()] (the snapshot written to
    tmp/game.txt and the prints are not modelled). *)
Definition game_iteration (player_one player_two : Player) (v : GameVars) : M flow :=
  let v0 := begin_full_move v in
  do t1 <- play_turn player_one (board v0) (game_state v0) true;
  let v1 := after_turn_one v0 t1 in
  if stops_after_turn_one v1 then ret (Break v1)
  else
    do t2 <- play_turn player_two (board v1) (game_state v1) false;
    let v2 := after_turn_two v1 t2 in
    if stops_after_turn_two v2 then ret (Break v2)
    else if MAX_MOVES <? total_moves v2 then ret (Break v2)
    else ret (Continue v2).

(** The [while] loop; [None] when [fuel] passes did not end it. *)
Fixpoint game_loop (fuel : nat) (player_one player_two : Player) (v : GameVars)
    : M (option GameVars) :=
  if is_game_over chess (board v) then ret (Some v)
  else
    match fuel with
    | O => ret None
    | S fuel' =>
        do r <- game_iteration player_one player_two v;
        match r with
        | Break v' => ret (Some v')
        | Continue v' => game_loop fuel' player_one player_two v'
        end
    end.

(** Passes that always end the loop of a game that starts with
    [total_moves = 0]. *)
Definition game_fuel : nat := Z.to_nat (MAX_MOVES + 1).

(** The body of [for _ in range(max_games)]; [prompt] is the content of
    tmp/prompt.txt. [None] only if the [while] loop ran out of fuel, which
    [game_fuel] rules out. *)
Definition play_one_game (player_one player_two : Player) (prompt : string)
    (randomize_opening_moves : option Z) : M (option unit) :=
  do (state0, board0) <-
    match randomize_opening_moves with
    | Some n => initialize_game_with_random_moves (new_board chess) prompt n
    | None => ret (prompt, new_board chess)
    end;
  do final <- game_loop game_fuel player_one player_two (initial_vars board0 state0);
  match final with
  | None => ret None
  | Some v =>
      record_results (board v) player_one player_two (game_state v)
        (player_one_illegal_moves v) (player_two_illegal_moves v)
        (player_one_legal_moves v) (player_two_legal_moves v)
        (player_one_resignation v) (player_two_resignation v)
        (player_one_failed_to_find_legal_move v)
        (player_two_failed_to_find_legal_move v)
        (total_moves v) (illegal_moves v) ;;
      ret (Some tt)
  end.

Fixpoint play_game (player_one player_two : Player) (prompt : string)
    (max_games : nat) (randomize_opening_moves : option Z) : M (option unit) :=
  match max_games with
  | O => ret (Some tt)
  | S max_games' =>
      do r <- play_one_game player_one player_two prompt randomize_opening_moves;
      match r with
      | None => ret None
      | Some _ => play_game player_one player_two prompt max_games'
                    randomize_opening_moves
      end
  end.

(** ** Reading a transcript back

    The spec's round trip: split the text the orchestrator appended on
    whitespace, strip the move-number prefixes, and compare with the moves
    pushed on the board. The reading follows the spec's words and the
    tokenizer of [initialize_game_with_opening]; it is not part of the
    orchestrator. *)

(** A token with a period keeps what follows its last period; a token
    that was only a move number leaves nothing. *)
Definition strip_move_number (token : string) : option string :=
  if Str.contains_char "." token
  then match List.last (Str.split_char "." token) "" with
       | EmptyString => None
       | move => Some move
       end
  else Some token.

Definition moves_of_transcript (text : string) : list string :=
  omap strip_move_number (Str.split_ws text).

(** What one pass of the loop appends, in order: the move number, then the
    text of each move pushed. *)
Inductive ply_event : Type :=
| MoveNumber (n : nat)
| Played (text : string) (uci : Move).

(** The agent's text without the leading space it may carry. *)
Definition san_token (text : string) : string :=
  match text with
  | String a rest => if Ascii.eqb a " " then rest else text
  | EmptyString => text
  end.

Definition render_event (e : ply_event) : string :=
  match e with
  | MoveNumber n => (if negb (n =? 1)%nat then " " else "") ++ Str.of_nat n ++ "."
  | Played text _ => normalize_san text
  end.

Fixpoint render (events : list ply_event) : string :=
  match events with
  | [] => ""
  | e :: events' => render_event e ++ render events'
  end.

(** Running the events on a board: a move number must be the oracle's
    full-move counter at that point, a played text must parse there to the
    legal move that is pushed. *)
Fixpoint replay (b : Board) (events : list ply_event) : option Board :=
  match events with
  | [] => Some b
  | MoveNumber n :: events' =>
      if (n =? fullmove_number chess b)%nat then replay b events' else None
  | Played text uci :: events' =>
      if bool_decide (parse_san chess b text = Some uci)
         && bool_decide (uci ∈ legal_moves chess b)
      then replay (push chess b uci) events' else None
  end.

Definition played_texts (events : list ply_event) : list string :=
  omap (fun e => match e with
                 | Played text _ => Some (san_token text)
                 | MoveNumber _ => None
                 end) events.

Fixpoint all_chars (p : ascii -> bool) (s : string) : bool :=
  match s with
  | EmptyString => true
  | String a s' => p a && all_chars p s'
  end.

(** A move token: not empty, no whitespace, no period. *)
Definition is_move_token (t : string) : bool :=
  negb (String.eqb t "")
  && all_chars (fun c => negb (Str.is_whitespace c) && negb (Ascii.eqb c ".")) t.

(** A word of [split()]: not empty, no whitespace. *)
Definition is_word (t : string) : bool :=
  negb (String.eqb t "") && all_chars (fun c => negb (Str.is_whitespace c)) t.

(** Words written one after the other, a space before each. *)
Fixpoint spaced (words : list string) : string :=
  match words with
  | [] => ""
  | t :: words' => " " ++ t ++ spaced words'
  end.

(** The word an event leaves in the transcript. *)
Definition event_token (e : ply_event) : string :=
  match e with
  | MoveNumber n => Str.of_nat n ++ "."
  | Played text _ => san_token text
  end.

(** A played text is written with exactly one space before a move token. *)
Definition written_as_move (e : ply_event) : Prop :=
  match e with
  | MoveNumber _ => True
  | Played text _ =>
      normalize_san text = " " ++ san_token text
      /\ is_move_token (san_token text) = true
  end.

(** A move number other than 1 is written after a space. *)
Definition after_space (e : ply_event) : Prop :=
  match e with
  | MoveNumber n => n <> 1%nat
  | Played _ _ => True
  end.

(** The discount a turn's cost takes from the mover's legal-turn counter. *)
Definition discount (cost : nat) : Z := if (Z.of_nat cost =? 0) then 0 else 1.

(** A configuration that [get_player_titles_and_time] can read: it has a
    "model" entry, or both a "skill_level" and a "play_time" entry. *)
Definition describes_itself (config : gmap string string) : bool :=
  match config !! "model" with
  | Some _ => true
  | None =>
      match config !! "skill_level", config !! "play_time" with
      | Some _, Some _ => true
      | _, _ => false
      end
  end.

(** ** The number a score stands for *)

(** The pieces of the result texts of python-chess, read as numbers. *)
Definition number_of_text (s : string) : option Q :=
  if String.eqb s "0" then Some (0 # 1)
  else if String.eqb s "1" then Some (1 # 1)
  else if String.eqb s "1/2" then Some (1 # 2)
  else None.

Definition score_value (x : score) : option Q :=
  match x with
  | ScoreInt z => Some (inject_Z z)
  | ScoreStr s => number_of_text s
  | ScoreFloat q => Some q
  end.

(** The value -1e10 that [record_results] stores when it cannot read the
    result. *)
Definition is_indeterminate (x : score) : bool :=
  match x with
  | ScoreFloat q => Qeq_bool q (-10000000000 # 1)
  | _ => false
  end.

Definition flow_vars (f : flow) : GameVars :=
  match f with
  | Break v => v
  | Continue v => v
  end.

End Engine.

Arguments get_move {chess W} _ _ _ _ _.
Arguments get_config {chess W} _.
Arguments world {W} _.
Arguments illegal_moves_file {W} _.
Arguments csv_rows {W} _.
Arguments set_world {W} _ _.
Arguments append_illegal_moves_file {W} _ _.
Arguments append_csv_row {W} _ _.
Arguments ret {W A} _ _.
Arguments raise {W A} _ _.
Arguments bind {W A B} _ _ _.
Arguments modify {W} _ _.
Arguments dict_get {W} _ _ _.
Arguments call_get_move {chess W} _ _ _ _ _.
Arguments move_san {chess} _.
Arguments move_uci {chess} _.
Arguments attempts {chess} _.
Arguments is_resignation {chess} _.
Arguments is_illegal_move {chess} _.
Arguments try_parse_san {chess} _ _.
Arguments resignation_response {chess} _.
Arguments legal_response {chess} _ _ _.
Arguments exhausted_response {chess} _.
Arguments legal_move_shape {chess} _.
Arguments resignation_shape {chess} _.
Arguments exhaustion_shape {chess} _.
Arguments on_parse_error {chess W} _ _ _ _.
Arguments get_legal_move_from {chess W} _ _ _ _ _ _ _.
Arguments get_legal_move {chess W} _ _ _ _ _ _.
Arguments ResignedBranch {chess}.
Arguments ExhaustedBranch {chess}.
Arguments NoMoveBranch {chess}.
Arguments MoveBranch {chess} _ _.
Arguments play_turn_branch {chess} _.
Arguments turn_board {chess} _.
Arguments turn_game_state {chess} _.
Arguments turn_resignation {chess} _.
Arguments turn_failed_to_find_legal_move {chess} _.
Arguments turn_illegal_moves {chess} _.
Arguments play_turn {chess W} _ _ _ _ _.
Arguments opening_board {chess} _.
Arguments opening_game_state {chess} _.
Arguments opening_moves {chess} _.
Arguments random_choice {chess W} _ _ _.
Arguments opening_ply {chess W} _ _ _ _ _.
Arguments no_moves {chess} _.
Arguments opening_full_move {chess W} _ _ _ _.
Arguments opening_moves_from {chess W} _ _ _ _ _.
Arguments opening_attempt {chess W} _ _ _ _ _.
Arguments initialize_attempts {chess W} _ _ _ _ _ _.
Arguments initialize_game_with_random_moves {chess W} _ _ _ _ _.
Arguments failed_attempts {chess W} _ _ _ _ _ _ _ _.
Arguments failed_none {chess W} _ _ _ _ _.
Arguments failed_next {chess W} _ _ _ _ _ _ _ _ _ _ _ _ _.
Arguments title_and_time {W} _ _.
Arguments get_player_titles_and_time {chess W} _ _ _.
Arguments score_resolution {chess} _ _ _ _ _.
Arguments record_results {chess W} _ _ _ _ _ _ _ _ _ _ _ _ _ _ _.
Arguments board {chess} _.
Arguments game_state {chess} _.
Arguments player_one_illegal_moves {chess} _.
Arguments player_two_illegal_moves {chess} _.
Arguments player_one_legal_moves {chess} _.
Arguments player_two_legal_moves {chess} _.
Arguments player_one_resignation {chess} _.
Arguments player_two_resignation {chess} _.
Arguments player_one_failed_to_find_legal_move {chess} _.
Arguments player_two_failed_to_find_legal_move {chess} _.
Arguments total_moves {chess} _.
Arguments illegal_moves {chess} _.
Arguments initial_vars {chess} _ _.
Arguments begin_full_move {chess} _.
Arguments after_turn_one {chess} _ _.
Arguments after_turn_two {chess} _ _.
Arguments stops_after_turn_one {chess} _.
Arguments stops_after_turn_two {chess} _.
Arguments Break {chess} _.
Arguments Continue {chess} _.
Arguments game_iteration {chess W} _ _ _ _.
Arguments game_loop {chess W} _ _ _ _ _.
Arguments play_one_game {chess W} _ _ _ _ _ _.
Arguments play_game {chess W} _ _ _ _ _ _ _.
Arguments MoveNumber {chess} _.
Arguments Played {chess} _ _.
Arguments render_event {chess} _.
Arguments render {chess} _.
Arguments replay {chess} _ _.
Arguments played_texts {chess} _.
Arguments flow_vars {chess} _.
Arguments event_token {chess} _.
Arguments written_as_move {chess} _.
Arguments after_space {chess} _.

(** ** More of [eval.py]: the opening catalog, the game id, the result files *)

(** [s.replace(c, d)] for one-character [c] and [d]. *)
Fixpoint replace_char (c d : ascii) (s : string) : string :=
  match s with
  | EmptyString => EmptyString
  | String a s' => String (if Ascii.eqb a c then d else a) (replace_char c d s')
  end.

Definition RUN_FOR_ANALYSIS : bool := true.
Definition recording_file : string := "tmp/determine.csv".

(** Lines 97-104 of [record_results]: where the row goes. *)
Definition csv_file_path (title_one title_two : string) : string :=
  if RUN_FOR_ANALYSIS
  then replace_char "." "_" ("logs/" ++ title_one ++ "_vs_" ++ title_two) ++ ".csv"
  else recording_file.

(** A line of a result file. *)
Inductive csv_line : Type :=
| HeaderLine
| RowLine (d : info_dict).

(** Lines 106-114 of [record_results] on a file system: the header goes
    first when the file does not exist yet, the row is appended. *)
Definition write_row (files : gmap string (list csv_line)) (path : string)
    (d : info_dict) : gmap string (list csv_line) :=
  match files !! path with
  | None => <[path := [HeaderLine; RowLine d]]> files
  | Some content => <[path := (content ++ [RowLine d])%list]> files
  end.

Definition row_path (d : info_dict) : string :=
  csv_file_path (player_one_title d) (player_two_title d).

(** The files that a history of rows, oldest first, leaves behind. *)
Definition files_of_rows (files : gmap string (list csv_line))
    (rows : list info_dict) : gmap string (list csv_line) :=
  fold_left (fun fs d => write_row fs (row_path d) d) rows files.

Section Catalog.

Context (chess : RulesOracle).
Context (W : Type).
Context (rand_index : W -> nat -> nat * W).
(** [int(time.time())] *)
Context (clock : W -> nat * W).

(** How [initialize_game_with_opening] can end; it raises what [exn] does
    not list: [IndexError] from [random.choice] on an empty catalog, and the
    [ValueError] of [board.push_san] on a move it cannot play, with the board
    as pushed so far. *)
Inductive catalog_outcome : Type :=
| CatalogOpening (game_state : string) (board : Board chess)
| CatalogEmpty
| CatalogMoveRejected (move : string) (board : Board chess).

(** The move of a token: after the last period if the token has one. *)
Definition catalog_move (token : string) : string :=
  if Str.contains_char "." token
  then List.last (Str.split_char "." token) ""
  else token.

(** [for token in tokens: ... board.push_san(move)]; [push_san] is
    [push(parse_san(move))]. *)
Fixpoint push_tokens (board : Board chess) (tokens : list string)
    : Board chess + string * Board chess :=
  match tokens with
  | [] => inl board
  | token :: tokens' =>
      let move := catalog_move token in
      match parse_san chess board move with
      | Some uci => push_tokens (push chess board uci) tokens'
      | None => inr (move, board)
      end
  end.

(** [file_lines] is what [file.readlines()] gives for tmp/openings.csv. *)
Definition initialize_game_with_opening (file_lines : list string)
    (game_state : string) (board : Board chess)
    : Sys W -> catalog_outcome * Sys W :=
  fun s =>
    let lines := tail file_lines in
    match lines with
    | [] => (CatalogEmpty, s)
    | line0 :: _ =>
        let (i, w) := rand_index (world s) (length lines) in
        let moves_string := nth (i mod length lines) lines line0 in
        let game_state := game_state ++ moves_string in
        match push_tokens board (Str.split_ws moves_string) with
        | inl board' => (CatalogOpening game_state board', set_world w s)
        | inr (move, board') => (CatalogMoveRejected move board', set_world w s)
        end
    end.

(** [generate_unique_game_id]; [random.randint(1000, 9999)] draws one of
    9000 numbers. *)
Definition generate_unique_game_id : M W string :=
  fun s =>
    let (timestamp, w) := clock (world s) in
    let (i, w') := rand_index w (9 * 1000)%nat in
    let random_num := (1000 + i mod (9 * 1000))%nat in
    (Ret (Str.of_nat timestamp ++ "-" ++ Str.of_nat random_num), set_world w' s).

End Catalog.

Arguments CatalogOpening {chess} _ _.
Arguments CatalogEmpty {chess}.
Arguments CatalogMoveRejected {chess} _ _.
Arguments push_tokens {chess} _ _.
Arguments initialize_game_with_opening {chess W} _ _ _ _ _.
Arguments generate_unique_game_id {W} _ _ _.

Section Paths.

Context (chess : RulesOracle).

(** Pushing [moves] one after the other, each one legal where it is
    pushed. *)
Fixpoint legal_path (b : Board chess) (moves : list (Move chess))
    : option (Board chess) :=
  match moves with
  | [] => Some b
  | m :: moves' =>
      if bool_decide (m ∈ legal_moves chess b)
      then legal_path (push chess b m) moves'
      else None
  end.

(** The counters of a game against its number of passes: a side's
    legal-turn counter lies between the passes less its illegal-move count
    and the passes; its illegal-move count is at most 5 a pass. *)
Definition counters_ok (v : GameVars chess) : Prop :=
  0 <= total_moves v
  /\ 0 <= player_one_illegal_moves v <= 5 * total_moves v
  /\ 0 <= player_two_illegal_moves v <= 5 * total_moves v
  /\ 0 <= player_one_legal_moves v <= total_moves v
  /\ 0 <= player_two_legal_moves v <= total_moves v
  /\ total_moves v - player_one_illegal_moves v <= player_one_legal_moves v
  /\ total_moves v - player_two_illegal_moves v <= player_two_legal_moves v.

(** No flag is set. *)
Definition no_flag (v : GameVars chess) : Prop :=
  player_one_resignation v = false
  /\ player_one_failed_to_find_legal_move v = false
  /\ player_two_resignation v = false
  /\ player_two_failed_to_find_legal_move v = false.

(** How many of the four end-of-game flags are set. *)
Definition flag_count (v : GameVars chess) : nat :=
  (Nat.b2n (player_one_resignation v)
   + Nat.b2n (player_one_failed_to_find_legal_move v)
   + Nat.b2n (player_two_resignation v)
   + Nat.b2n (player_two_failed_to_find_legal_move v))%nat.

End Paths.

(** The last character of a text is whitespace. *)
Fixpoint ends_with_whitespace (s : string) : bool :=
  match s with
  | EmptyString => false
  | String a EmptyString => Str.is_whitespace a
  | String _ s' => ends_with_whitespace s'
  end.

Arguments legal_path {chess} _ _.
Arguments counters_ok {chess} _.
Arguments flag_count {chess} _.
Arguments no_flag {chess} _.

(** ** A small oracle and scripted agents, for examples

    A position is the list of moves played, newest first. "e4" (also with a
    leading space) and "Nf3" read as the moves 0 and 1, "Qh5" reads as a
    move that is never legal, anything else does not parse. The game is
    over, with no legal move left, once [limit] plies were played. *)

Module Toy.

Definition over (limit : nat) (b : list nat) : bool := (limit <=? length b)%nat.

Definition parse (s : string) : option nat :=
  if String.eqb s "e4" then Some 0%nat
  else if String.eqb s " e4" then Some 0%nat
  else if String.eqb s "Nf3" then Some 1%nat
  else if String.eqb s "Qh5" then Some 7%nat
  else None.

Definition oracle (limit : nat) : RulesOracle :=
  {| Board := list nat;
     Move := nat;
     Move_eq_dec := Nat.eq_dec;
     new_board := [];
     reset := fun _ => [];
     legal_moves := fun b => if over limit b then [] else [0%nat; 1%nat];
     parse_san := fun _ s => parse s;
     san := fun _ m => if (m =? 0)%nat then "e4" else "Nf3";
     push := fun b m => m :: b;
     is_game_over := over limit;
     result := fun b => if over limit b then "1/2-1/2" else "*";
     fullmove_number := fun b => S (length b / 2) |}.

(** The world counts the calls made to agents and to the generator. *)
Definition W : Type := nat.

Definition rand_index (w : W) (n : nat) : nat * W := (w, S w).

Definition model_config : gmap string string :=
  {[ "model" := "gpt-3.5-turbo-instruct" ]}.

Definition engine_config : gmap string string :=
  <[ "skill_level" := "0" ]> {[ "play_time" := "0.1" ]}.

(** An agent that always answers [text]. *)
Definition always (limit : nat) (config : gmap string string) (text : option string)
    : Player (oracle limit) W :=
  {| get_move := fun w _ _ _ => (text, S w); get_config := config |}.

(** An agent that answers by the number of calls made so far. *)
Definition scripted (limit : nat) (config : gmap string string)
    (script : list (option string)) : Player (oracle limit) W :=
  {| get_move := fun w _ _ _ => (nth w script None, S w); get_config := config |}.

Definition start : Sys W :=
  {| world := 0%nat; illegal_moves_file := ""; csv_rows := [] |}.

(** The move cap as the spec words it, on the small oracle, where the
    length of the board is the number of half-moves played: the game is
    over as soon as that number exceeds MAX_MOVES, so it never goes beyond
    MAX_MOVES + 1. *)
Definition ends_at_ply_cap (limit : nat)
    (white black : Player (oracle limit) W) : Prop :=
  forall v s',
    game_loop game_fuel white black (initial_vars (chess := oracle limit) [] "")
      start = (Ret (Some v), s') ->
    Z.of_nat (length (board v)) <= MAX_MOVES + 1.

End Toy.

(** * Properties *)

(** ** Strings *)

Section StrFacts.

Local Open Scope string_scope.

Lemma str_app_cons (x : ascii) (a b : string) :
  String x a ++ b = String x (a ++ b).
Proof. reflexivity. Qed.

Lemma str_app_nil_l (a : string) : "" ++ a = a.
Proof. reflexivity. Qed.

Lemma str_app_assoc (a b c : string) : (a ++ b) ++ c = a ++ (b ++ c).
Proof.
  induction a as [|x a IH]; [reflexivity |].
  rewrite !str_app_cons, IH. reflexivity.
Qed.

Lemma str_app_nil_r (a : string) : a ++ "" = a.
Proof.
  induction a as [|x a IH]; [reflexivity |].
  rewrite str_app_cons, IH. reflexivity.
Qed.

Lemma all_chars_app p (a b : string) :
  all_chars p (a ++ b) = all_chars p a && all_chars p b.
Proof.
  induction a as [|x a IH]; [reflexivity |].
  rewrite str_app_cons. cbn [all_chars]. rewrite IH, andb_assoc. reflexivity.
Qed.

Lemma all_chars_weaken (p q : ascii -> bool) (a : string) :
  (forall c, p c = true -> q c = true) ->
  all_chars p a = true -> all_chars q a = true.
Proof.
  intros Hpq. induction a as [|x a IH]; cbn; [reflexivity |].
  rewrite !andb_true_iff. intros [Hx Ha]. split; [apply Hpq, Hx | apply IH, Ha].
Qed.

(** A run of non-whitespace characters at the head of a text stays in one
    piece with what [scan_ws] reads next. *)
Lemma scan_ws_word_app (t rest : string) :
  all_chars (fun c => negb (Str.is_whitespace c)) t = true ->
  Str.scan_ws (t ++ rest)
  = (t ++ fst (Str.scan_ws rest), snd (Str.scan_ws rest)).
Proof.
  induction t as [|a t IH].
  - intros _. change ("" ++ rest) with rest.
    destruct (Str.scan_ws rest); reflexivity.
  - rewrite !str_app_cons. cbn [all_chars Str.scan_ws].
    rewrite andb_true_iff. intros [Ha Ht]. rewrite (IH Ht).
    apply negb_true_iff in Ha. rewrite Ha. reflexivity.
Qed.

Lemma split_ws_space (rest : string) :
  Str.split_ws (String " " rest) = Str.split_ws rest.
Proof.
  unfold Str.split_ws. cbn [Str.scan_ws].
  destruct (Str.scan_ws rest) as [h ts].
  change (Str.is_whitespace " ") with true. reflexivity.
Qed.

Lemma is_word_inv (t : string) :
  is_word t = true ->
  t <> "" /\ all_chars (fun c => negb (Str.is_whitespace c)) t = true.
Proof.
  unfold is_word. rewrite andb_true_iff, negb_true_iff. intros [Hne Hall].
  split; [| exact Hall]. intros ->. discriminate Hne.
Qed.

Lemma push_token_word (t : string) (ts : list string) :
  t <> "" -> Str.push_token t ts = t :: ts.
Proof. destruct t; [congruence | reflexivity]. Qed.

(** A word followed by nothing, or by a space and more text. *)
Lemma split_ws_word_end (t : string) : is_word t = true -> Str.split_ws t = [t].
Proof.
  intros Hw. apply is_word_inv in Hw. destruct Hw as [Hne Hall].
  rewrite <- (str_app_nil_r t) at 1.
  unfold Str.split_ws. rewrite (scan_ws_word_app _ _ Hall). cbn.
  rewrite str_app_nil_r. apply push_token_word, Hne.
Qed.

Lemma split_ws_word_space (t rest : string) :
  is_word t = true ->
  Str.split_ws (t ++ String " " rest) = t :: Str.split_ws rest.
Proof.
  intros Hw. apply is_word_inv in Hw. destruct Hw as [Hne Hall].
  unfold Str.split_ws. rewrite (scan_ws_word_app _ _ Hall).
  cbn [Str.scan_ws]. destruct (Str.scan_ws rest) as [h ts].
  change (Str.is_whitespace " ") with true. cbn [fst snd].
  rewrite str_app_nil_r. apply push_token_word, Hne.
Qed.

Lemma split_ws_spaced (words : list string) :
  Forall (fun t => is_word t = true) words ->
  Str.split_ws (spaced words) = words.
Proof.
  induction 1 as [|t words Ht Hwords IH]; [reflexivity |].
  cbn [spaced]. change (" " ++ t ++ spaced words)
    with (String " " (t ++ spaced words)).
  rewrite split_ws_space.
  destruct words as [|t' words'].
  - cbn [spaced]. rewrite str_app_nil_r. apply split_ws_word_end, Ht.
  - cbn [spaced]. change (" " ++ t' ++ spaced words')
      with (String " " (t' ++ spaced words')).
    rewrite (split_ws_word_space _ _ Ht). f_equal.
    rewrite <- split_ws_space. exact IH.
Qed.

Lemma split_ws_word_spaced (t : string) (words : list string) :
  is_word t = true ->
  Forall (fun t => is_word t = true) words ->
  Str.split_ws (t ++ spaced words) = t :: words.
Proof.
  intros Ht Hwords. destruct words as [|t' words'].
  - cbn [spaced]. rewrite str_app_nil_r. apply split_ws_word_end, Ht.
  - pose proof (split_ws_spaced _ Hwords) as Hs.
    cbn [spaced] in *. change (" " ++ t' ++ spaced words')
      with (String " " (t' ++ spaced words')) in *.
    rewrite (split_ws_word_space _ _ Ht). f_equal.
    rewrite split_ws_space in Hs. exact Hs.
Qed.

(** Decimal digits are not whitespace and not periods. *)
Lemma of_nat_chars (n : nat) :
  all_chars (fun c => negb (Str.is_whitespace c) && negb (Ascii.eqb c "."))
    (Str.of_nat n) = true.
Proof.
  unfold Str.of_nat. generalize (Nat.to_uint n). intros u.
  induction u; cbn [NilEmpty.string_of_uint all_chars]; rewrite ?IHu;
    reflexivity.
Qed.

Lemma contains_char_app_r (c : ascii) (a : string) :
  Str.contains_char c (a ++ String c "") = true.
Proof.
  induction a as [|x a IH].
  - rewrite str_app_nil_l. cbn. rewrite Ascii.eqb_refl. reflexivity.
  - rewrite str_app_cons. cbn [Str.contains_char]. rewrite IH. apply orb_true_r.
Qed.

Lemma split_char_app_r (c : ascii) (a : string) :
  exists h t, Str.split_char c (a ++ String c "") = (h :: t ++ [""])%list.
Proof.
  induction a as [|x a (h & t & IH)].
  - rewrite str_app_nil_l. cbn. rewrite Ascii.eqb_refl. exists "", []. reflexivity.
  - rewrite str_app_cons. cbn [Str.split_char]. rewrite IH.
    destruct (Ascii.eqb x c).
    + exists "", (h :: t). reflexivity.
    + exists (String x h), t. reflexivity.
Qed.

(** A token that ends in a period is only a move number for the reader. *)
Lemma strip_move_number_number (a : string) :
  strip_move_number (a ++ ".") = None.
Proof.
  unfold strip_move_number. rewrite contains_char_app_r.
  destruct (split_char_app_r "." a) as (h & t & ->).
  change (h :: t ++ [""])%list with ((h :: t) ++ [""])%list.
  rewrite List.last_last. reflexivity.
Qed.

Lemma move_token_no_period (t : string) :
  all_chars (fun c => negb (Str.is_whitespace c) && negb (Ascii.eqb c ".")) t = true ->
  Str.contains_char "." t = false.
Proof.
  induction t as [|a t IH]; cbn; [reflexivity |].
  rewrite !andb_true_iff, !negb_true_iff. intros [[_ Ha] Ht].
  rewrite Ha, (IH Ht). reflexivity.
Qed.

Lemma is_move_token_inv (t : string) :
  is_move_token t = true ->
  is_word t = true /\ strip_move_number t = Some t.
Proof.
  unfold is_move_token, is_word. rewrite andb_true_iff. intros [Hne Hall].
  split.
  - rewrite Hne. cbn [andb].
    eapply all_chars_weaken; [| exact Hall].
    intros c Hc. apply andb_true_iff in Hc. tauto.
  - unfold strip_move_number. rewrite (move_token_no_period _ Hall). reflexivity.
Qed.

Lemma number_token_is_word (n : nat) : is_word (Str.of_nat n ++ ".") = true.
Proof.
  unfold is_word. apply andb_true_iff. split.
  - destruct (Str.of_nat n); reflexivity.
  - rewrite all_chars_app. apply andb_true_iff. split; [| reflexivity].
    eapply all_chars_weaken; [| apply of_nat_chars].
    intros c Hc. apply andb_true_iff in Hc. tauto.
Qed.

(** The code's normalisation writes one space before the text's token. *)
Lemma normalize_san_token (text : string) :
  normalize_san text = " " ++ san_token text.
Proof.
  unfold normalize_san, san_token, Str.startswith.
  destruct text as [|a rest]; [reflexivity |].
  destruct (Ascii.eqb a " ") eqn:Ha; cbn [negb]; [| reflexivity].
  apply Ascii.eqb_eq in Ha. subst a. reflexivity.
Qed.

End StrFacts.

(** ** The turn resolution engine *)

Section TurnResolution.

Context {chess : RulesOracle} {W : Type}.
Implicit Types (player : Player chess W) (board : Board chess) (s : Sys W).

Lemma bind_ret_inv {A B} (c : M W A) (k : A -> M W B) s b s' :
  bind c k s = (Ret b, s') ->
  exists a s1, c s = (Ret a, s1) /\ k a s1 = (Ret b, s').
Proof.
  unfold bind. destruct (c s) as [[a|e] s1]; intros H.
  - exists a, s1. split; [reflexivity | exact H].
  - discriminate H.
Qed.

Lemma on_parse_error_model player game_state text s model :
  get_config player !! "model" = Some model ->
  on_parse_error player game_state text s =
    (Ret tt,
     if String.eqb model "gpt-3.5-turbo-instruct"
     then append_illegal_moves_file
            (game_state ++ Str.newline ++ Str.of_optional text ++ Str.newline) s
     else s).
Proof.
  intros Hm. unfold on_parse_error, bind, dict_get. rewrite Hm. unfold ret.
  destruct (String.eqb model _); reflexivity.
Qed.

Lemma on_parse_error_no_model player game_state text s :
  get_config player !! "model" = None ->
  on_parse_error player game_state text s = (Raise (KeyError "model"), s).
Proof.
  intros Hm. unfold on_parse_error, bind, dict_get. rewrite Hm. reflexivity.
Qed.

Lemma on_parse_error_world player game_state text s r s1 :
  on_parse_error player game_state text s = (r, s1) ->
  world s1 = world s /\ csv_rows s1 = csv_rows s.
Proof.
  destruct (get_config player !! "model") as [model|] eqn:Hm.
  - rewrite (on_parse_error_model _ _ _ _ _ Hm). intros [= <- <-].
    destruct (String.eqb model _); split; reflexivity.
  - rewrite (on_parse_error_no_model _ _ _ _ Hm). intros [= <- <-].
    split; reflexivity.
Qed.

(** One pass of the attempt loop, once the agent's answer is known. *)
Lemma get_legal_move_from_step player board game_state max_attempts remaining
    attempt s text w' :
  get_move player (world s) board game_state (urgency_hint attempt max_attempts)
    = (text, w') ->
  get_legal_move_from player board game_state max_attempts (S remaining) attempt s =
    if answers_result_marker text
    then (Ret (resignation_response attempt), set_world w' s)
    else
      match try_parse_san board text with
      | None =>
          match on_parse_error player game_state text (set_world w' s) with
          | (Ret _, s1) =>
              get_legal_move_from player board game_state max_attempts
                remaining (S attempt) s1
          | (Raise e, s1) => (Raise e, s1)
          end
      | Some (t, uci) =>
          if bool_decide (uci ∈ legal_moves chess board)
          then (Ret (legal_response (normalize_san t) uci attempt), set_world w' s)
          else get_legal_move_from player board game_state max_attempts
                 remaining (S attempt) (set_world w' s)
      end.
Proof.
  intros Hmove. cbn [get_legal_move_from]. unfold bind at 1.
  unfold call_get_move at 1. rewrite Hmove.
  destruct (answers_result_marker text); [reflexivity |].
  destruct (try_parse_san board text) as [[t uci]|]; [| reflexivity].
  destruct (bool_decide _); reflexivity.
Qed.

(** Every response is built at some attempt index below the maximum, or is
    the exhaustion built after the loop. *)
Lemma get_legal_move_from_cases player board game_state max_attempts :
  forall remaining attempt s r s',
    (attempt + remaining = max_attempts)%nat ->
    get_legal_move_from player board game_state max_attempts remaining attempt s
      = (Ret r, s') ->
    (exists k, (attempt <= k < max_attempts)%nat /\ r = resignation_response k)
    \/ (exists k t uci, (attempt <= k < max_attempts)%nat
          /\ r = legal_response (normalize_san t) uci k
          /\ parse_san chess board t = Some uci
          /\ uci ∈ legal_moves chess board)
    \/ r = exhausted_response max_attempts.
Proof.
  induction remaining as [|remaining IH]; intros attempt s r s' Hsum Hrun.
  - cbn in Hrun. injection Hrun as <- <-. right. right. reflexivity.
  - destruct (get_move player (world s) board game_state
                (urgency_hint attempt max_attempts)) as [text w'] eqn:Hmove.
    rewrite (get_legal_move_from_step _ _ _ _ _ _ _ _ _ Hmove) in Hrun.
    assert (Hnext : forall s1,
      get_legal_move_from player board game_state max_attempts remaining
        (S attempt) s1 = (Ret r, s') ->
      (exists k, (attempt <= k < max_attempts)%nat /\ r = resignation_response k)
      \/ (exists k t uci, (attempt <= k < max_attempts)%nat
            /\ r = legal_response (normalize_san t) uci k
            /\ parse_san chess board t = Some uci
            /\ uci ∈ legal_moves chess board)
      \/ r = exhausted_response max_attempts).
    { intros s1 H1. apply IH in H1; [| lia].
      destruct H1 as [(k & Hk & ->) | [(k & t & uci & Hk & -> & Hp & Hl) | ->]].
      - left. exists k. split; [lia | reflexivity].
      - right. left. exists k, t, uci. repeat split; try lia; assumption.
      - right. right. reflexivity. }
    destruct (answers_result_marker text).
    { injection Hrun as <- <-. left. exists attempt. split; [lia | reflexivity]. }
    destruct (try_parse_san board text) as [[t uci]|] eqn:Hparse.
    + destruct (bool_decide (uci ∈ legal_moves chess board)) eqn:Hlegal.
      * injection Hrun as <- <-. right. left. exists attempt, t, uci.
        apply bool_decide_eq_true in Hlegal.
        unfold try_parse_san in Hparse. destruct text as [t0|]; [| discriminate].
        destruct (parse_san chess board t0) as [m|] eqn:Hp; [| discriminate].
        injection Hparse as -> ->.
        repeat split; try lia; assumption.
      * eapply Hnext, Hrun.
    + destruct (on_parse_error player game_state text (set_world w' s))
        as [[[]|e] s1]; [| discriminate].
      eapply Hnext, Hrun.
Qed.

(** A player that has a "model" entry never makes the handler raise, so the
    call always returns a response. *)
Lemma get_legal_move_from_returns player board game_state max_attempts model :
  get_config player !! "model" = Some model ->
  forall remaining attempt s,
  exists r s',
    get_legal_move_from player board game_state max_attempts remaining attempt s
      = (Ret r, s').
Proof.
  intros Hm. induction remaining as [|remaining IH]; intros attempt s.
  - eexists _, _. reflexivity.
  - destruct (get_move player (world s) board game_state
                (urgency_hint attempt max_attempts)) as [text w'] eqn:Hmove.
    rewrite (get_legal_move_from_step _ _ _ _ _ _ _ _ _ Hmove).
    destruct (answers_result_marker text); [eexists _, _; reflexivity |].
    destruct (try_parse_san board text) as [[t uci]|].
    + destruct (bool_decide _); [eexists _, _; reflexivity | apply IH].
    + rewrite (on_parse_error_model _ _ _ _ _ Hm). apply IH.
Qed.

(** C1. With [max_attempts = 5], the attempt count of a returned response is
    in [0, 5], and it is 5 exactly when the response reports illegal-move
    exhaustion. *)
Theorem attempts_in_range player board game_state player_one s r s' :
  get_legal_move player board game_state player_one 5 s = (Ret r, s') ->
  (0 <= attempts r <= 5)%nat
  /\ (attempts r = 5%nat <-> is_illegal_move r = true).
Proof.
  unfold get_legal_move. intros Hrun.
  apply get_legal_move_from_cases in Hrun; [| reflexivity].
  destruct Hrun as [(k & Hk & ->) | [(k & t & uci & Hk & -> & _) | ->]]; cbn.
  - split; [lia |]. split; [lia | discriminate].
  - split; [lia |]. split; [lia | discriminate].
  - split; [lia |]. split; reflexivity.
Qed.

(** A failed parse, for a player with a "model" entry: the handler returns
    and the loop goes on with the next index (and the next hint). *)
Lemma parse_failure_retries player board game_state max_attempts remaining
    attempt s text w' model :
  get_config player !! "model" = Some model ->
  get_move player (world s) board game_state (urgency_hint attempt max_attempts)
    = (text, w') ->
  answers_result_marker text = false ->
  try_parse_san board text = None ->
  get_legal_move_from player board game_state max_attempts (S remaining) attempt s =
    get_legal_move_from player board game_state max_attempts remaining (S attempt)
      (if String.eqb model "gpt-3.5-turbo-instruct"
       then append_illegal_moves_file
              (game_state ++ Str.newline ++ Str.of_optional text ++ Str.newline)
              (set_world w' s)
       else set_world w' s).
Proof.
  intros Hm Hmove Hmark Hparse.
  rewrite (get_legal_move_from_step _ _ _ _ _ _ _ _ _ Hmove), Hmark, Hparse.
  rewrite (on_parse_error_model _ _ _ _ _ Hm). reflexivity.
Qed.

(** A failed parse, for a player without a "model" entry: the lookup in
    the handler raises and the exception leaves [get_legal_move]. *)
Lemma parse_failure_raises_without_model player board game_state max_attempts
    remaining attempt s text w' :
  get_config player !! "model" = None ->
  get_move player (world s) board game_state (urgency_hint attempt max_attempts)
    = (text, w') ->
  answers_result_marker text = false ->
  try_parse_san board text = None ->
  get_legal_move_from player board game_state max_attempts (S remaining) attempt s =
    (Raise (KeyError "model"), set_world w' s).
Proof.
  intros Hm Hmove Hmark Hparse.
  rewrite (get_legal_move_from_step _ _ _ _ _ _ _ _ _ Hmove), Hmark, Hparse.
  rewrite (on_parse_error_no_model _ _ _ _ Hm). reflexivity.
Qed.

Lemma is_result_marker_spec text :
  is_result_marker text = true <->
  text = "1-0" \/ text = "0-1" \/ text = "1/2-1/2".
Proof.
  unfold is_result_marker. rewrite !orb_true_iff, !String.eqb_eq. tauto.
Qed.

(** C6. An answer that is literally "1-0", "0-1" or "1/2-1/2" ends the
    loop at once with a resignation: no move, [is_resignation] set,
    [is_illegal_move] clear, the attempt count left at the index reached;
    the agent is not asked again (the state is the one right after this
    answer). *)
Theorem result_marker_is_resignation player board game_state max_attempts
    remaining attempt s text w' :
  get_move player (world s) board game_state (urgency_hint attempt max_attempts)
    = (Some text, w') ->
  text = "1-0" \/ text = "0-1" \/ text = "1/2-1/2" ->
  exists r,
    get_legal_move_from player board game_state max_attempts (S remaining) attempt s
      = (Ret r, set_world w' s)
    /\ move_san r = None /\ move_uci r = None
    /\ is_resignation r = true /\ is_illegal_move r = false
    /\ attempts r = attempt
    /\ play_turn_branch r = ResignedBranch.
Proof.
  intros Hmove Hmark. apply is_result_marker_spec in Hmark.
  exists (resignation_response attempt).
  rewrite (get_legal_move_from_step _ _ _ _ _ _ _ _ _ Hmove). cbn.
  rewrite Hmark. repeat split; reflexivity.
Qed.

(** C10. A returned response is exactly one of a legal move, a resignation
    and an exhaustion, so the third arm of [play_turn] is never taken; and
    an answer with no text is one failed attempt: the loop goes on with the
    next index and the response counts it. *)
Theorem response_is_move_resignation_or_exhaustion player board game_state
    max_attempts remaining attempt s r s' :
  (attempt + remaining = max_attempts)%nat ->
  get_legal_move_from player board game_state max_attempts remaining attempt s
    = (Ret r, s') ->
  exactly_one (legal_move_shape r) (resignation_shape r) (exhaustion_shape r) = true
  /\ play_turn_branch r <> NoMoveBranch
  /\ (forall remaining' w',
        remaining = S remaining' ->
        get_move player (world s) board game_state
          (urgency_hint attempt max_attempts) = (None, w') ->
        (attempt < attempts r)%nat
        /\ exists s1,
             on_parse_error player game_state None (set_world w' s) = (Ret tt, s1)
             /\ get_legal_move_from player board game_state max_attempts
                  remaining' (S attempt) s1 = (Ret r, s')).
Proof.
  intros Hsum Hrun. split; [| split].
  - apply get_legal_move_from_cases in Hrun; [| exact Hsum].
    destruct Hrun as [(k & _ & ->) | [(k & t & uci & _ & -> & _) | ->]];
      reflexivity.
  - apply get_legal_move_from_cases in Hrun; [| exact Hsum].
    destruct Hrun as [(k & _ & ->) | [(k & t & uci & _ & -> & _) | ->]];
      discriminate.
  - intros remaining' w' -> Hmove.
    rewrite (get_legal_move_from_step _ _ _ _ _ _ _ _ _ Hmove) in Hrun.
    cbn [answers_result_marker try_parse_san] in Hrun.
    destruct (on_parse_error player game_state None (set_world w' s))
      as [[[]|e] s1] eqn:Hhandler; [| discriminate].
    split.
    + apply get_legal_move_from_cases in Hrun; [| lia].
      destruct Hrun as [(k & Hk & ->) | [(k & t & uci & Hk & -> & _) | ->]];
        cbn; lia.
    + exists s1. split; [reflexivity | exact Hrun].
Qed.

End TurnResolution.

(** ** The result adjudicator *)

Section Adjudication.

Context {chess : RulesOracle} {W : Type}.
Implicit Types (board : Board chess) (s : Sys W).

Lemma title_and_time_state (config : gmap string string) s r s1 :
  title_and_time config s = (r, s1) -> s1 = s.
Proof.
  unfold title_and_time, bind, dict_get, ret, raise.
  destruct (config !! "model"); [congruence |].
  destruct (config !! "skill_level"); [| congruence].
  destruct (config !! "play_time"); congruence.
Qed.

(** What a call that returns has done: one row appended, with the result
    and the scores of [score_resolution]. *)
Lemma record_results_row board (player_one player_two : Player chess W) game_state
    i1 i2 l1 l2 r1 r2 f1 f2 tm im s s' :
  record_results board player_one player_two game_state i1 i2 l1 l2 r1 r2 f1 f2
    tm im s = (Ret tt, s') ->
  exists d,
    s' = append_csv_row d s
    /\ (result_text d, player_one_score d, player_two_score d)
       = score_resolution board r1 r2 f1 f2
    /\ transcript d = game_state
    /\ number_of_moves d = fullmove_number chess board
    /\ row_total_moves d = tm.
Proof.
  unfold record_results. intros H.
  apply bind_ret_inv in H. destruct H as ([[[t1 t2] m1] m2] & s1 & Htitles & H).
  assert (s1 = s) as ->.
  { unfold get_player_titles_and_time in Htitles.
    apply bind_ret_inv in Htitles. destruct Htitles as ([a1 b1] & s2 & H1 & H2).
    apply bind_ret_inv in H2. destruct H2 as ([a2 b2] & s3 & H2 & H3).
    apply title_and_time_state in H1. apply title_and_time_state in H2.
    injection H3 as _ _ _ _ <-. congruence. }
  destruct (score_resolution board r1 r2 f1 f2) as [[res sc1] sc2] eqn:Hscore.
  unfold modify in H. injection H as <-.
  eexists. split; [reflexivity |]. cbn. repeat split; reflexivity.
Qed.

(** The call returns whenever both configurations can be read. *)
Lemma record_results_returns board (player_one player_two : Player chess W)
    game_state i1 i2 l1 l2 r1 r2 f1 f2 tm im s :
  describes_itself (get_config player_one) = true ->
  describes_itself (get_config player_two) = true ->
  exists s',
    record_results board player_one player_two game_state i1 i2 l1 l2 r1 r2 f1 f2
      tm im s = (Ret tt, s').
Proof.
  unfold describes_itself, record_results, get_player_titles_and_time,
    title_and_time, bind, dict_get, ret, raise, modify.
  intros H1 H2.
  destruct (get_config player_one !! "model");
    [| destruct (get_config player_one !! "skill_level"); [| discriminate];
       destruct (get_config player_one !! "play_time"); [| discriminate]];
  (destruct (get_config player_two !! "model");
    [| destruct (get_config player_two !! "skill_level"); [| discriminate];
       destruct (get_config player_two !! "play_time"); [| discriminate]]);
  destruct (score_resolution board r1 r2 f1 f2) as [[res sc1] sc2];
  eexists; reflexivity.
Qed.

Lemma score_resolution_player_one_loses board r1 r2 f1 f2 :
  r1 || f1 = true ->
  score_resolution board r1 r2 f1 f2 = ("0-1", ScoreInt 0, ScoreInt 1).
Proof. unfold score_resolution. intros ->. reflexivity. Qed.

Lemma score_resolution_player_two_loses board r1 r2 f1 f2 :
  r1 || f1 = false -> r2 || f2 = true ->
  score_resolution board r1 r2 f1 f2 = ("1-0", ScoreInt 1, ScoreInt 0).
Proof. unfold score_resolution. intros -> ->. reflexivity. Qed.

End Adjudication.

(** ** One turn and one pass of the game loop *)

Section GameLoop.

Context {chess : RulesOracle} {W : Type}.
Implicit Types (player : Player chess W) (v : GameVars chess) (s : Sys W).

(** What [play_turn] returns, by the kind of response it received. *)
Lemma play_turn_cases player (b : Board chess) game_state player_one s t s' :
  play_turn player b game_state player_one s = (Ret t, s') ->
  (exists text uci,
      parse_san chess b text = Some uci /\ uci ∈ legal_moves chess b
      /\ turn_board t = push chess b uci
      /\ turn_game_state t = (game_state ++ normalize_san text)%string
      /\ turn_resignation t = false
      /\ turn_failed_to_find_legal_move t = false
      /\ (turn_illegal_moves t < 5)%nat)
  \/ (turn_board t = b /\ turn_game_state t = game_state
      /\ ((turn_resignation t = true /\ turn_failed_to_find_legal_move t = false
           /\ (turn_illegal_moves t < 5)%nat)
          \/ (turn_resignation t = false /\ turn_failed_to_find_legal_move t = true
              /\ turn_illegal_moves t = 5%nat))).
Proof.
  unfold play_turn. intros H.
  apply bind_ret_inv in H. destruct H as (r & s1 & Hrun & H).
  unfold get_legal_move in Hrun.
  apply get_legal_move_from_cases in Hrun; [| reflexivity].
  destruct Hrun as [(k & Hk & ->) | [(k & text & uci & Hk & -> & Hp & Hl) | ->]];
    cbn in H; injection H as <- <-; cbn.
  - right. repeat split. left. repeat split. lia.
  - left. exists text, uci. repeat split; try assumption. lia.
  - right. repeat split. right. repeat split.
Qed.

(** A resignation marker as first answer: the turn ends with a
    resignation, at no cost, and the board and transcript are untouched. *)
Lemma play_turn_resigns player (b : Board chess) game_state player_one s text w' :
  get_move player (world s) b game_state (urgency_hint 0 5) = (Some text, w') ->
  is_result_marker text = true ->
  play_turn player b game_state player_one s =
    (Ret {| turn_board := b; turn_game_state := game_state;
            turn_resignation := true;
            turn_failed_to_find_legal_move := false;
            turn_illegal_moves := 0 |}, set_world w' s).
Proof.
  intros Hmove Hmark. unfold play_turn, get_legal_move, bind at 1.
  rewrite (get_legal_move_from_step _ _ _ _ _ _ _ _ _ Hmove). cbn.
  rewrite Hmark. reflexivity.
Qed.

Lemma flow_vars_choice (c : bool) v :
  flow_vars (if c then Break v else Continue v) = v.
Proof. destruct c; reflexivity. Qed.

(** One pass of the loop, read backwards from its result. *)
Lemma game_iteration_inv (player_one player_two : Player chess W) v s f s' :
  game_iteration player_one player_two v s = (Ret f, s') ->
  exists t1 s1,
    play_turn player_one (board (begin_full_move v))
      (game_state (begin_full_move v)) true s = (Ret t1, s1)
    /\ ((stops_after_turn_one (after_turn_one (begin_full_move v) t1) = true
         /\ f = Break (after_turn_one (begin_full_move v) t1) /\ s' = s1)
        \/ (stops_after_turn_one (after_turn_one (begin_full_move v) t1) = false
            /\ exists t2,
                 play_turn player_two
                   (board (after_turn_one (begin_full_move v) t1))
                   (game_state (after_turn_one (begin_full_move v) t1)) false s1
                 = (Ret t2, s')
                 /\ f = (let v2 := after_turn_two
                                     (after_turn_one (begin_full_move v) t1) t2 in
                         if stops_after_turn_two v2 || (MAX_MOVES <? total_moves v2)
                         then Break v2 else Continue v2))).
Proof.
  unfold game_iteration. intros H.
  apply bind_ret_inv in H. destruct H as (t1 & s1 & Ht1 & H).
  exists t1, s1. split; [exact Ht1 |].
  destruct (stops_after_turn_one (after_turn_one (begin_full_move v) t1)) eqn:Hstop.
  - left. injection H as <- <-. repeat split.
  - right. split; [reflexivity |].
    apply bind_ret_inv in H. destruct H as (t2 & s2 & Ht2 & H).
    exists t2. cbn zeta.
    destruct (stops_after_turn_two _); cbn [orb];
      [| destruct (MAX_MOVES <? _)]; injection H as <- <-; split;
      solve [exact Ht2 | reflexivity].
Qed.

(** The pass ends right after player one's half-move when a stop test
    holds there: player two is not asked. *)
Lemma game_iteration_stops_after_turn_one (player_one player_two : Player chess W)
    v s t1 s1 :
  play_turn player_one (board (begin_full_move v))
    (game_state (begin_full_move v)) true s = (Ret t1, s1) ->
  stops_after_turn_one (after_turn_one (begin_full_move v) t1) = true ->
  game_iteration player_one player_two v s
  = (Ret (Break (after_turn_one (begin_full_move v) t1)), s1).
Proof.
  intros Ht1 Hstop. unfold game_iteration, bind at 1. rewrite Ht1, Hstop.
  reflexivity.
Qed.

(** The pass when both half-moves are played. *)
Lemma game_iteration_both_turns (player_one player_two : Player chess W)
    v s t1 s1 t2 s2 :
  play_turn player_one (board (begin_full_move v))
    (game_state (begin_full_move v)) true s = (Ret t1, s1) ->
  stops_after_turn_one (after_turn_one (begin_full_move v) t1) = false ->
  play_turn player_two (board (after_turn_one (begin_full_move v) t1))
    (game_state (after_turn_one (begin_full_move v) t1)) false s1 = (Ret t2, s2) ->
  game_iteration player_one player_two v s
  = (Ret (let v2 := after_turn_two (after_turn_one (begin_full_move v) t1) t2 in
          if stops_after_turn_two v2 || (MAX_MOVES <? total_moves v2)
          then Break v2 else Continue v2), s2).
Proof.
  intros Ht1 Hstop Ht2. unfold game_iteration, bind at 1. rewrite Ht1, Hstop.
  unfold bind at 1. rewrite Ht2. cbn zeta.
  destruct (stops_after_turn_two _); cbn [orb];
    [| destruct (MAX_MOVES <? _)]; reflexivity.
Qed.

End GameLoop.

(** ** Scores *)

Section Scores.

Context {chess : RulesOracle} {W : Type}.
Implicit Types (v : GameVars chess) (s : Sys W).

(** C2. A resignation or an illegal-move exhaustion decides the scores
    before the oracle's result is looked at: the side that did it scores 0
    and the other side 1, with the text "0-1" when it is player one and
    "1-0" when it is player two. In particular, when Black (player two)
    answers a result marker such as "1-0", the pass ends with player two's
    resignation and the scores are White 1, Black 0. *)
Theorem resignation_or_exhaustion_decides_scores (b : Board chess)
    (player_one player_two : Player chess W) (final_text : string)
    i1 i2 l1 l2 r1 r2 f1 f2 tm im s s' :
  record_results b player_one player_two final_text i1 i2 l1 l2 r1 r2 f1 f2
    tm im s = (Ret tt, s') ->
  exists d,
    csv_rows s' = (csv_rows s ++ [d])%list
    /\ (r1 || f1 = true ->
        result_text d = "0-1"
        /\ player_one_score d = ScoreInt 0 /\ player_two_score d = ScoreInt 1)
    /\ (r1 || f1 = false -> r2 || f2 = true ->
        result_text d = "1-0"
        /\ player_one_score d = ScoreInt 1 /\ player_two_score d = ScoreInt 0)
    /\ (forall v s0 t1 s1 text w2,
          play_turn player_one (board (begin_full_move v))
            (game_state (begin_full_move v)) true s0 = (Ret t1, s1) ->
          stops_after_turn_one (after_turn_one (begin_full_move v) t1) = false ->
          get_move player_two (world s1)
            (board (after_turn_one (begin_full_move v) t1))
            (game_state (after_turn_one (begin_full_move v) t1))
            (urgency_hint 0 5) = (Some text, w2) ->
          is_result_marker text = true ->
          exists v2,
            game_iteration player_one player_two v s0
              = (Ret (Break v2), set_world w2 s1)
            /\ player_two_resignation v2 = true
            /\ score_resolution (board v2)
                 (player_one_resignation v2) (player_two_resignation v2)
                 (player_one_failed_to_find_legal_move v2)
                 (player_two_failed_to_find_legal_move v2)
               = ("1-0", ScoreInt 1, ScoreInt 0)).
Proof.
  intros Hrec.
  apply record_results_row in Hrec.
  destruct Hrec as (d & -> & Hscore & _).
  exists d. split; [reflexivity |]. split; [| split].
  - intros H1. rewrite (score_resolution_player_one_loses _ _ _ _ _ H1) in Hscore.
    injection Hscore as -> -> ->. repeat split.
  - intros H1 H2.
    rewrite (score_resolution_player_two_loses _ _ _ _ _ H1 H2) in Hscore.
    injection Hscore as -> -> ->. repeat split.
  - intros v s0 t1 s1 text w2 Ht1 Hstop Hmove Hmark.
    pose proof (play_turn_resigns player_two _ _ false s1 text w2 Hmove Hmark)
      as Ht2.
    rewrite (game_iteration_both_turns _ _ _ _ _ _ _ _ Ht1 Hstop Ht2).
    cbn zeta. unfold stops_after_turn_two at 1. cbn [player_two_resignation
      after_turn_two turn_resignation].
    rewrite orb_true_r. cbn [orb].
    eexists. split; [reflexivity |]. split; [reflexivity |].
    unfold stops_after_turn_one in Hstop.
    apply orb_false_elim in Hstop. destruct Hstop as [Hstop Hf1].
    apply orb_false_elim in Hstop. destruct Hstop as [_ Hr1].
    apply score_resolution_player_two_loses.
    + cbn [player_one_resignation player_one_failed_to_find_legal_move
           after_turn_two]. rewrite Hr1, Hf1. reflexivity.
    + reflexivity.
Qed.

(** The oracle's result with no resignation or exhaustion: "*" gives one
    half each. *)
Lemma score_resolution_move_cap (b : Board chess) r1 r2 f1 f2 :
  r1 || f1 = false -> r2 || f2 = false -> result chess b = "*" ->
  score_resolution b r1 r2 f1 f2 = ("*", ScoreFloat (1 # 2), ScoreFloat (1 # 2)).
Proof.
  unfold score_resolution. intros -> -> ->. reflexivity.
Qed.

Lemma score_resolution_sum (b : Board chess) r1 r2 f1 f2 res sc1 sc2 :
  (Str.contains_char "-" (result chess b) = true ->
   is_result_marker (result chess b) = true) ->
  score_resolution b r1 r2 f1 f2 = (res, sc1, sc2) ->
  is_indeterminate sc1 = false -> is_indeterminate sc2 = false ->
  exists q1 q2,
    score_value sc1 = Some q1 /\ score_value sc2 = Some q2
    /\ (q1 + q2 == 0 \/ q1 + q2 == 1)%Q.
Proof.
  intros Hnatural. unfold score_resolution.
  destruct (r1 || f1).
  { intros [= <- <- <-] _ _. exists 0%Q, 1%Q. repeat split. right. reflexivity. }
  destruct (r2 || f2).
  { intros [= <- <- <-] _ _. exists 1%Q, 0%Q. repeat split. right. reflexivity. }
  destruct (Str.contains_char "-" (result chess b)) eqn:Hdash.
  - specialize (Hnatural eq_refl). apply is_result_marker_spec in Hnatural.
    destruct Hnatural as [-> | [-> | ->]]; intros [= <- <- <-] _ _.
    + exists 1%Q, 0%Q. repeat split. right. reflexivity.
    + exists 0%Q, 1%Q. repeat split. right. reflexivity.
    + exists (1 # 2)%Q, (1 # 2)%Q. repeat split. right. reflexivity.
  - destruct (String.eqb (result chess b) "*").
    + intros [= <- <- <-] _ _. exists (1 # 2)%Q, (1 # 2)%Q. repeat split.
      right. reflexivity.
    + intros [= <- <- <-] Hind. discriminate Hind.
Qed.

(** C4. For a row whose scores are not the indeterminate value, the two
    scores, read as numbers, add up to 0 or 1; and when nobody resigned or
    ran out of attempts and the oracle's result is "*" (game stopped by the
    move cap), both scores are exactly one half. The oracle's result, when
    it contains "-", is one of "1-0", "0-1" and "1/2-1/2". *)
Theorem score_invariant (b : Board chess)
    (player_one player_two : Player chess W) game_state
    i1 i2 l1 l2 r1 r2 f1 f2 tm im s s' :
  (Str.contains_char "-" (result chess b) = true ->
   is_result_marker (result chess b) = true) ->
  record_results b player_one player_two game_state i1 i2 l1 l2 r1 r2 f1 f2
    tm im s = (Ret tt, s') ->
  exists d,
    csv_rows s' = (csv_rows s ++ [d])%list
    /\ (is_indeterminate (player_one_score d) = false ->
        is_indeterminate (player_two_score d) = false ->
        exists q1 q2,
          score_value (player_one_score d) = Some q1
          /\ score_value (player_two_score d) = Some q2
          /\ (q1 + q2 == 0 \/ q1 + q2 == 1)%Q)
    /\ (r1 || f1 = false -> r2 || f2 = false -> result chess b = "*" ->
        result_text d = "*"
        /\ player_one_score d = ScoreFloat (1 # 2)
        /\ player_two_score d = ScoreFloat (1 # 2)).
Proof.
  intros Hnatural Hrec.
  apply record_results_row in Hrec.
  destruct Hrec as (d & -> & Hscore & _).
  exists d. split; [reflexivity |]. split.
  - intros H1 H2.
    exact (score_resolution_sum b r1 r2 f1 f2 _ _ _ Hnatural (eq_sym Hscore) H1 H2).
  - intros H1 H2 Hstar.
    rewrite (score_resolution_move_cap _ _ _ _ _ H1 H2 Hstar) in Hscore.
    injection Hscore as -> -> ->. repeat split.
Qed.

End Scores.

(** ** The match orchestrator: counters and the move cap *)

Section Orchestrator.

Context {chess : RulesOracle} {W : Type}.
Implicit Types (v : GameVars chess) (s : Sys W).

(** C8. In one pass of the loop, both legal-turn counters go up by one
    before player one's move is resolved. Player one's resolution, at a cost
    of [turn_illegal_moves], adds the cost to player one's illegal-move
    count and takes one off player one's legal-turn counter when the cost
    is not zero; player two's counters are as they were after the
    increment. Player two's resolution, when it takes place, does the same
    for player two and leaves player one's counters alone. *)
Theorem counters_per_pass (player_one player_two : Player chess W) v s f s' :
  game_iteration player_one player_two v s = (Ret f, s') ->
  exists t1 s1,
    play_turn player_one (board (begin_full_move v))
      (game_state (begin_full_move v)) true s = (Ret t1, s1)
    /\ player_one_legal_moves (begin_full_move v) = player_one_legal_moves v + 1
    /\ player_two_legal_moves (begin_full_move v) = player_two_legal_moves v + 1
    /\ player_one_illegal_moves (begin_full_move v) = player_one_illegal_moves v
    /\ player_two_illegal_moves (begin_full_move v) = player_two_illegal_moves v
    /\ (let v1 := after_turn_one (begin_full_move v) t1 in
        player_one_illegal_moves v1
          = player_one_illegal_moves v + Z.of_nat (turn_illegal_moves t1)
        /\ player_one_legal_moves v1
          = player_one_legal_moves v + 1 - discount (turn_illegal_moves t1)
        /\ player_two_illegal_moves v1 = player_two_illegal_moves v
        /\ player_two_legal_moves v1 = player_two_legal_moves v + 1
        /\ ((f = Break v1 /\ s' = s1)
            \/ exists t2,
                 play_turn player_two (board v1) (game_state v1) false s1
                   = (Ret t2, s')
                 /\ flow_vars f = after_turn_two v1 t2
                 /\ player_two_illegal_moves (flow_vars f)
                    = player_two_illegal_moves v1 + Z.of_nat (turn_illegal_moves t2)
                 /\ player_two_legal_moves (flow_vars f)
                    = player_two_legal_moves v1 - discount (turn_illegal_moves t2)
                 /\ player_one_illegal_moves (flow_vars f)
                    = player_one_illegal_moves v1
                 /\ player_one_legal_moves (flow_vars f)
                    = player_one_legal_moves v1)).
Proof.
  intros Hrun. apply game_iteration_inv in Hrun.
  destruct Hrun as (t1 & s1 & Ht1 & Hrest).
  exists t1, s1. split; [exact Ht1 |].
  do 4 (split; [reflexivity |]).
  cbn zeta. split; [reflexivity |].
  split.
  { cbn. unfold discount. destruct (Z.of_nat (turn_illegal_moves t1) =? 0); cbn; lia. }
  do 2 (split; [reflexivity |]).
  destruct Hrest as [(_ & -> & ->) | (_ & t2 & Ht2 & ->)].
  - left. split; reflexivity.
  - right. exists t2. split; [exact Ht2 |].
    cbn zeta. rewrite flow_vars_choice.
    split; [reflexivity |]. split; [reflexivity |]. split.
    { cbn. unfold discount.
      destruct (Z.of_nat (turn_illegal_moves t2) =? 0); cbn; lia. }
    split; reflexivity.
Qed.

(** One pass adds one to [total_moves], and goes on to the next pass only
    below the cap. *)
Lemma game_iteration_total_moves (player_one player_two : Player chess W)
    v s f s' :
  game_iteration player_one player_two v s = (Ret f, s') ->
  total_moves (flow_vars f) = total_moves v + 1
  /\ (forall v', f = Continue v' ->
        stops_after_turn_two v' = false /\ total_moves v' <= MAX_MOVES)
  /\ (forall v', f = Break v' ->
        stops_after_turn_one v' = true
        \/ stops_after_turn_two v' = true
        \/ MAX_MOVES < total_moves v').
Proof.
  intros Hrun. apply game_iteration_inv in Hrun.
  destruct Hrun as (t1 & s1 & Ht1 & [(Hstop & -> & ->) | (Hstop & t2 & Ht2 & ->)]).
  - split; [reflexivity |]. split.
    + intros v' [=].
    + intros v' [= <-]. left. exact Hstop.
  - cbn zeta.
    destruct (stops_after_turn_two _) eqn:Hstop2; cbn [orb].
    + split; [reflexivity |]. split.
      * intros v' [=].
      * intros v' [= <-]. right. left. exact Hstop2.
    + destruct (MAX_MOVES <? _) eqn:Hcap.
      * split; [reflexivity |]. split.
        -- intros v' [=].
        -- intros v' [= <-]. right. right. apply Z.ltb_lt. exact Hcap.
      * split; [reflexivity |]. split.
        -- intros v' [= <-]. split; [exact Hstop2 |]. apply Z.ltb_ge. exact Hcap.
        -- intros v' [=].
Qed.

(** The flags a stop test reads. *)
Lemma stops_after_turn_one_cause v :
  stops_after_turn_one v = true ->
  is_game_over chess (board v) = true
  \/ player_one_resignation v = true
  \/ player_one_failed_to_find_legal_move v = true.
Proof.
  unfold stops_after_turn_one. rewrite !orb_true_iff. tauto.
Qed.

Lemma stops_after_turn_two_cause v :
  stops_after_turn_two v = true ->
  is_game_over chess (board v) = true
  \/ player_two_resignation v = true
  \/ player_two_failed_to_find_legal_move v = true.
Proof.
  unfold stops_after_turn_two. rewrite !orb_true_iff. tauto.
Qed.

(** The loop ends within the fuel that the cap leaves, for a reason. *)
Lemma game_loop_ends (player_one player_two : Player chess W) :
  forall fuel v s o s',
    total_moves v <= MAX_MOVES ->
    MAX_MOVES + 1 - total_moves v <= Z.of_nat fuel ->
    game_loop fuel player_one player_two v s = (Ret o, s') ->
    exists v',
      o = Some v'
      /\ total_moves v <= total_moves v' <= MAX_MOVES + 1
      /\ (is_game_over chess (board v') = true
          \/ player_one_resignation v' = true
          \/ player_one_failed_to_find_legal_move v' = true
          \/ player_two_resignation v' = true
          \/ player_two_failed_to_find_legal_move v' = true
          \/ total_moves v' = MAX_MOVES + 1).
Proof.
  induction fuel as [|fuel IH]; intros v s o s' Hle Hfuel Hrun.
  - lia.
  - cbn [game_loop] in Hrun.
    destruct (is_game_over chess (board v)) eqn:Hover.
    { injection Hrun as <- <-. exists v. split; [reflexivity |].
      split; [lia |]. left. exact Hover. }
    apply bind_ret_inv in Hrun. destruct Hrun as (f & s1 & Hpass & Hrun).
    apply game_iteration_total_moves in Hpass.
    destruct Hpass as (Htotal & Hcont & Hbreak).
    destruct f as [v1 | v1]; cbn [flow_vars] in Htotal.
    + injection Hrun as <- <-. exists v1. split; [reflexivity |].
      split; [lia |].
      destruct (Hbreak v1 eq_refl) as [H1 | [H2 | Hcap]].
      * apply stops_after_turn_one_cause in H1. tauto.
      * apply stops_after_turn_two_cause in H2. tauto.
      * right. right. right. right. right. lia.
    + destruct (Hcont v1 eq_refl) as [_ Hbelow].
      apply IH in Hrun; [| lia | lia].
      destruct Hrun as (v' & -> & Hrange & Hcause).
      exists v'. split; [reflexivity |]. split; [lia | exact Hcause].
Qed.

(** C5, as the code has it. Game over, resignation and exhaustion are
    tested after each half-move; the move cap is tested once per pass of
    the loop, after player two's half-move, against [total_moves], which
    counts passes (one per pair of half-moves). A game that starts with
    [total_moves = 0] always leaves the loop, after at most MAX_MOVES + 1
    passes, and for one of these reasons. A pass that stops on the cap
    alone leaves no flag set, and the oracle's "*" then scores one half
    each. *)
Theorem move_cap_counts_passes (player_one player_two : Player chess W)
    (b0 : Board chess) (state0 : string) s o s' :
  game_loop game_fuel player_one player_two (initial_vars b0 state0) s
    = (Ret o, s') ->
  (exists v,
      o = Some v
      /\ 0 <= total_moves v <= MAX_MOVES + 1
      /\ (is_game_over chess (board v) = true
          \/ player_one_resignation v = true
          \/ player_one_failed_to_find_legal_move v = true
          \/ player_two_resignation v = true
          \/ player_two_failed_to_find_legal_move v = true
          \/ total_moves v = MAX_MOVES + 1))
  /\ (forall v1 s1 f s2,
        game_iteration player_one player_two v1 s1 = (Ret f, s2) ->
        total_moves (flow_vars f) = total_moves v1 + 1
        /\ (forall v', f = Continue v' ->
              stops_after_turn_two v' = false /\ total_moves v' <= MAX_MOVES)
        /\ (forall v', f = Break v' ->
              stops_after_turn_one v' = true
              \/ stops_after_turn_two v' = true
              \/ MAX_MOVES < total_moves v'))
  /\ (forall v1 s1 t1 s2,
        play_turn player_one (board (begin_full_move v1))
          (game_state (begin_full_move v1)) true s1 = (Ret t1, s2) ->
        stops_after_turn_one (after_turn_one (begin_full_move v1) t1) = true ->
        game_iteration player_one player_two v1 s1
        = (Ret (Break (after_turn_one (begin_full_move v1) t1)), s2))
  /\ (forall v1 s1 v' s2,
        game_iteration player_one player_two v1 s1 = (Ret (Break v'), s2) ->
        stops_after_turn_one v' = false ->
        stops_after_turn_two v' = false ->
        MAX_MOVES < total_moves v'
        /\ (result chess (board v') = "*" ->
            score_resolution (board v')
              (player_one_resignation v') (player_two_resignation v')
              (player_one_failed_to_find_legal_move v')
              (player_two_failed_to_find_legal_move v')
            = ("*", ScoreFloat (1 # 2), ScoreFloat (1 # 2)))).
Proof.
  intros Hrun. split; [| split; [| split]].
  - apply game_loop_ends in Hrun.
    + exact Hrun.
    + cbn. unfold MAX_MOVES. cbn. lia.
    + cbn. reflexivity.
  - intros v1 s1 f s2. apply game_iteration_total_moves.
  - intros v1 s1 t1 s2. apply game_iteration_stops_after_turn_one.
  - intros v1 s1 v' s2 Hpass Hone Htwo.
    apply game_iteration_total_moves in Hpass. destruct Hpass as (_ & _ & Hbreak).
    destruct (Hbreak v' eq_refl) as [H | [H | Hcap]]; [congruence | congruence |].
    split; [exact Hcap |]. intros Hstar.
    unfold stops_after_turn_one in Hone. unfold stops_after_turn_two in Htwo.
    apply orb_false_elim in Hone. destruct Hone as [Hone Hf1].
    apply orb_false_elim in Hone. destruct Hone as [_ Hr1].
    apply orb_false_elim in Htwo. destruct Htwo as [Htwo Hf2].
    apply orb_false_elim in Htwo. destruct Htwo as [_ Hr2].
    apply score_resolution_move_cap; [| | exact Hstar].
    + rewrite Hr1, Hf1. reflexivity.
    + rewrite Hr2, Hf2. reflexivity.
Qed.

End Orchestrator.

(** ** The transcript *)

Section Transcript.

Context {chess : RulesOracle} {W : Type}.
Implicit Types (v : GameVars chess) (s : Sys W) (events : list (ply_event chess)).

Local Open Scope string_scope.

(** What is asked of the oracle (python-chess meets it): a text it reads
    as a legal move is a move token, after at most one leading space; the
    full-move counter starts at 1 or more and goes up by one every two
    half-moves. *)
Hypothesis legal_text_is_token :
  forall (b : Board chess) text uci,
    parse_san chess b text = Some uci -> uci ∈ legal_moves chess b ->
    is_move_token (san_token text) = true.
Hypothesis fullmove_number_positive :
  forall b : Board chess, (1 <= fullmove_number chess b)%nat.
Hypothesis fullmove_number_pair :
  forall (b : Board chess) m1 m2,
    fullmove_number chess (push chess (push chess b m1) m2)
    = S (fullmove_number chess b).

Lemma render_app events1 events2 :
  render (events1 ++ events2) = render events1 ++ render events2.
Proof.
  induction events1 as [|e events1 IH]; [reflexivity |].
  cbn [render app]. rewrite IH, str_app_assoc. reflexivity.
Qed.

Lemma replay_app (b : Board chess) events1 events2 :
  replay b (events1 ++ events2)
  = match replay b events1 with
    | Some b' => replay b' events2
    | None => None
    end.
Proof.
  revert b. induction events1 as [|e events1 IH]; intros b; [reflexivity |].
  cbn [replay app]. destruct e as [n | text uci].
  - destruct (n =? _)%nat; [apply IH | reflexivity].
  - destruct (_ && _); [apply IH | reflexivity].
Qed.

Lemma event_token_is_word events :
  Forall written_as_move events ->
  Forall (fun t => is_word t = true) (map event_token events).
Proof.
  induction 1 as [|e events He _ IH]; cbn [map]; constructor; [| exact IH].
  destruct e as [n | text uci]; cbn [event_token].
  - apply number_token_is_word.
  - destruct He as [_ He]. apply is_move_token_inv in He. tauto.
Qed.

Lemma render_event_after_space (e : ply_event chess) :
  written_as_move e -> after_space e ->
  render_event e = " " ++ event_token e.
Proof.
  destruct e as [n | text uci]; cbn [written_as_move after_space render_event
    event_token].
  - intros _ Hn. apply Nat.eqb_neq in Hn. rewrite Hn. reflexivity.
  - intros [Hnorm _] _. exact Hnorm.
Qed.

Lemma render_spaced events :
  Forall written_as_move events -> Forall after_space events ->
  render events = spaced (map event_token events).
Proof.
  induction 1 as [|e events He _ IH]; intros Hsp; [reflexivity |].
  inversion Hsp as [|? ? Hsp1 Hsp2]; subst.
  cbn [render map spaced].
  rewrite (render_event_after_space e He Hsp1), (IH Hsp2), str_app_assoc.
  reflexivity.
Qed.

(** Splitting what the events wrote gives back one word per event. *)
Lemma split_ws_render events :
  Forall written_as_move events -> Forall after_space (tail events) ->
  Str.split_ws (render events) = map event_token events.
Proof.
  intros Hw Hsp. destruct events as [|e events]; [reflexivity |].
  inversion Hw as [|? ? He Hw']; subst. cbn [tail] in Hsp.
  cbn [render map]. rewrite (render_spaced events Hw' Hsp).
  pose proof (event_token_is_word _ Hw') as Hwords.
  destruct e as [n | text uci].
  - cbn [render_event event_token]. destruct (n =? 1)%nat; cbn [negb].
    + rewrite str_app_nil_l.
      apply split_ws_word_spaced; [apply number_token_is_word | exact Hwords].
    + rewrite str_app_assoc.
      apply (split_ws_spaced (_ :: _)). constructor;
        [apply number_token_is_word | exact Hwords].
  - cbn [render_event event_token]. destruct He as [Hnorm Htok].
    rewrite Hnorm, str_app_assoc.
    apply (split_ws_spaced (_ :: _)). constructor; [| exact Hwords].
    apply is_move_token_inv in Htok. tauto.
Qed.

Lemma omap_cons_list {A B} (f : A -> option B) (x : A) (l : list A) :
  omap f (x :: l)
  = match f x with
    | Some y => y :: omap f l
    | None => omap f l
    end.
Proof. reflexivity. Qed.

(** Stripping the move numbers leaves the played texts. *)
Lemma strip_event_tokens events :
  Forall written_as_move events ->
  omap strip_move_number (map event_token events) = played_texts events.
Proof.
  induction 1 as [|e events He _ IH]; [reflexivity |].
  unfold played_texts in *. cbn [map]. rewrite !omap_cons_list.
  destruct e as [n | text uci]; cbn [event_token].
  - rewrite strip_move_number_number. exact IH.
  - destruct He as [_ Htok]. apply is_move_token_inv in Htok.
    destruct Htok as [_ ->]. rewrite IH. reflexivity.
Qed.

(** One turn, as events. *)
Lemma play_turn_trace (player : Player chess W) (b : Board chess) text0
    player_one s t s' :
  play_turn player b text0 player_one s = (Ret t, s') ->
  exists events,
    replay b events = Some (turn_board t)
    /\ turn_game_state t = text0 ++ render events
    /\ Forall written_as_move events
    /\ Forall after_space events
    /\ ((events = []
         /\ (turn_resignation t = true
             \/ turn_failed_to_find_legal_move t = true))
        \/ exists text uci,
             events = [Played text uci] /\ turn_board t = push chess b uci).
Proof.
  intros Hturn. apply play_turn_cases in Hturn.
  destruct Hturn as [(text & uci & Hp & Hl & Hb & Hg & _) | (Hb & Hg & Hflags)].
  - exists [Played text uci]. split; [| split; [| split; [| split]]].
    + cbn [replay]. rewrite !bool_decide_eq_true_2 by assumption.
      cbn [andb]. rewrite Hb. reflexivity.
    + rewrite Hg. cbn [render render_event]. rewrite str_app_nil_r. reflexivity.
    + constructor; [| constructor]. split; [apply normalize_san_token |].
      exact (legal_text_is_token b text uci Hp Hl).
    + constructor; [exact I | constructor].
    + right. exists text, uci. split; [reflexivity | exact Hb].
  - exists []. split; [| split; [| split; [| split]]].
    + rewrite Hb. reflexivity.
    + rewrite Hg. cbn [render]. rewrite str_app_nil_r. reflexivity.
    + constructor.
    + constructor.
    + left. split; [reflexivity |]. tauto.
Qed.

Lemma begin_full_move_text v :
  game_state (begin_full_move v)
  = game_state v
    ++ render_event (chess := chess) (MoveNumber (fullmove_number chess (board v))).
Proof.
  cbn [begin_full_move game_state render_event].
  destruct (negb _); [apply str_app_assoc | reflexivity].
Qed.

(** One pass of the loop, as events: its move number, then the moves. *)
Lemma game_iteration_trace (player_one player_two : Player chess W) v s f s' :
  game_iteration player_one player_two v s = (Ret f, s') ->
  exists events,
    replay (board v) (MoveNumber (fullmove_number chess (board v)) :: events)
      = Some (board (flow_vars f))
    /\ game_state (flow_vars f)
       = game_state v
         ++ render (MoveNumber (fullmove_number chess (board v)) :: events)
    /\ Forall written_as_move events
    /\ Forall after_space events
    /\ (forall v', f = Continue v' -> fullmove_number chess (board v') <> 1%nat).
Proof.
  intros Hrun. apply game_iteration_inv in Hrun.
  destruct Hrun as (t1 & s1 & Ht1 & Hrest).
  apply play_turn_trace in Ht1.
  destruct Ht1 as (ev1 & Hrep1 & Htext1 & Hw1 & Hsp1 & Hshape1).
  cbn [replay]. rewrite Nat.eqb_refl. cbn [render].
  change (board (begin_full_move v)) with (board v) in Hrep1.
  rewrite begin_full_move_text, str_app_assoc in Htext1.
  destruct Hrest as [(Hstop & -> & ->) | (Hstop & t2 & Ht2 & ->)].
  - exists ev1. cbn [flow_vars after_turn_one board game_state].
    repeat split; try assumption. intros v' [=].
  - apply play_turn_trace in Ht2.
    destruct Ht2 as (ev2 & Hrep2 & Htext2 & Hw2 & Hsp2 & Hshape2).
    cbn [after_turn_one board game_state] in Hrep2, Htext2.
    exists (ev1 ++ ev2)%list. cbn zeta.
    rewrite flow_vars_choice. cbn [after_turn_two board game_state].
    split; [| split; [| split; [| split]]].
    + rewrite replay_app, Hrep1. exact Hrep2.
    + rewrite Htext2, Htext1, render_app, !str_app_assoc. reflexivity.
    + apply Forall_app. split; assumption.
    + apply Forall_app. split; assumption.
    + intros v' Hf.
      destruct (stops_after_turn_two _) eqn:Hstop2; cbn [orb] in Hf;
        [discriminate |].
      destruct (MAX_MOVES <? _)%Z; [discriminate |]. injection Hf as <-.
      cbn [after_turn_two board].
      unfold stops_after_turn_one in Hstop. unfold stops_after_turn_two in Hstop2.
      cbn [after_turn_one after_turn_two board player_one_resignation
           player_one_failed_to_find_legal_move player_two_resignation
           player_two_failed_to_find_legal_move] in Hstop, Hstop2.
      apply orb_false_elim in Hstop. destruct Hstop as [Hstop Hf1].
      apply orb_false_elim in Hstop. destruct Hstop as [_ Hr1].
      apply orb_false_elim in Hstop2. destruct Hstop2 as [Hstop2 Hf2].
      apply orb_false_elim in Hstop2. destruct Hstop2 as [_ Hr2].
      destruct Hshape1 as [(_ & [H | H]) | (text1 & uci1 & _ & Hb1)];
        [congruence | congruence |].
      destruct Hshape2 as [(_ & [H | H]) | (text2 & uci2 & _ & Hb2)];
        [congruence | congruence |].
      rewrite Hb2. cbn [after_turn_one board]. rewrite Hb1.
      change (board (begin_full_move v)) with (board v).
      rewrite fullmove_number_pair.
      pose proof (fullmove_number_positive (board v)). lia.
Qed.

(** The whole loop, as events. *)
Lemma game_loop_trace (player_one player_two : Player chess W) :
  forall fuel v s v' s',
    game_loop fuel player_one player_two v s = (Ret (Some v'), s') ->
    exists events,
      replay (board v) events = Some (board v')
      /\ game_state v' = game_state v ++ render events
      /\ Forall written_as_move events
      /\ Forall after_space (tail events)
      /\ (fullmove_number chess (board v) <> 1%nat -> Forall after_space events).
Proof.
  induction fuel as [|fuel IH]; intros v s v' s' Hrun; cbn [game_loop] in Hrun.
  - destruct (is_game_over chess (board v)); [| discriminate].
    injection Hrun as <- <-. exists []. cbn [render replay tail].
    rewrite str_app_nil_r. repeat split; constructor.
  - destruct (is_game_over chess (board v)).
    { injection Hrun as <- <-. exists []. cbn [render replay tail].
      rewrite str_app_nil_r. repeat split; constructor. }
    apply bind_ret_inv in Hrun. destruct Hrun as (f & s1 & Hpass & Hrun).
    apply game_iteration_trace in Hpass.
    destruct Hpass as (ev & Hrep & Htext & Hw & Hsp & Hnext).
    destruct f as [v1 | v1]; cbn [flow_vars] in Hrep, Htext.
    + injection Hrun as <- <-.
      exists (MoveNumber (fullmove_number chess (board v)) :: ev).
      split; [exact Hrep |]. split; [exact Htext |].
      split; [constructor; [exact I | exact Hw] |].
      split; [exact Hsp |].
      intros Hn. constructor; [exact Hn | exact Hsp].
    + apply IH in Hrun.
      destruct Hrun as (ev' & Hrep' & Htext' & Hw' & _ & Hsp').
      specialize (Hsp' (Hnext v1 eq_refl)).
      exists ((MoveNumber (fullmove_number chess (board v)) :: ev) ++ ev')%list.
      split; [| split; [| split; [| split]]].
      * rewrite replay_app, Hrep. exact Hrep'.
      * rewrite Htext', Htext, render_app, str_app_assoc. reflexivity.
      * apply Forall_app. split; [constructor; [exact I | exact Hw] | exact Hw'].
      * cbn [app tail]. apply Forall_app. split; assumption.
      * intros Hn. apply Forall_app. split; [| exact Hsp'].
        constructor; [exact Hn | exact Hsp].
Qed.

(** C7. What the loop appends to the transcript is the rendering of a
    sequence of events that replays on the board from where the loop
    started to where it ended: each move number is the oracle's full-move
    counter at that point, each played text parses there to the legal move
    pushed. Splitting the appended text on whitespace and stripping the
    move numbers gives exactly the played texts, in order; each played text
    was written as one space followed by a move token. *)
Theorem transcript_round_trip (player_one player_two : Player chess W)
    fuel v s v' s' :
  game_loop fuel player_one player_two v s = (Ret (Some v'), s') ->
  exists events,
    replay (board v) events = Some (board v')
    /\ game_state v' = game_state v ++ render events
    /\ moves_of_transcript (render events) = played_texts events
    /\ Forall written_as_move events.
Proof.
  intros Hrun. apply game_loop_trace in Hrun.
  destruct Hrun as (events & Hrep & Htext & Hw & Hsp & _).
  exists events. split; [exact Hrep |]. split; [exact Htext |].
  split; [| exact Hw].
  unfold moves_of_transcript.
  rewrite (split_ws_render events Hw Hsp). apply strip_event_tokens, Hw.
Qed.

End Transcript.

(** ** The random opening *)

Section Opening.

Context {chess : RulesOracle} {W : Type} (rand_index : W -> nat -> nat * W).
Implicit Types (b : Board chess) (v : OpeningVars chess) (s : Sys W).

Lemma random_choice_returns (moves : list (Move chess)) s :
  exists choice s1,
    random_choice rand_index moves s = (Ret choice, s1)
    /\ csv_rows s1 = csv_rows s
    /\ (choice = None <-> moves = []).
Proof.
  unfold random_choice. destruct moves as [|m0 moves].
  - exists None, s. repeat split.
  - destruct (rand_index (world s) (length (m0 :: moves))) as [i w].
    eexists _, _. split; [reflexivity |]. split; [reflexivity |].
    split; discriminate.
Qed.

Lemma opening_ply_returns moveIdx player v s :
  exists v' s1,
    opening_ply rand_index moveIdx player v s = (Ret v', s1)
    /\ csv_rows s1 = csv_rows s.
Proof.
  unfold opening_ply, bind.
  destruct (random_choice_returns (legal_moves chess (opening_board v)) s)
    as (choice & s1 & -> & Hrows & _).
  destruct choice; eexists _, _; (split; [reflexivity | exact Hrows]).
Qed.

Lemma opening_full_move_returns moveIdx v s :
  exists v' s1,
    opening_full_move rand_index moveIdx v s = (Ret v', s1)
    /\ csv_rows s1 = csv_rows s.
Proof.
  unfold opening_full_move, bind.
  destruct (opening_ply_returns moveIdx 0 v s) as (v0 & s0 & -> & Hrows0).
  destruct (no_moves v0).
  - exists v0, s0. split; [reflexivity | exact Hrows0].
  - destruct (opening_ply_returns moveIdx 1 v0 s0) as (v1 & s1 & -> & Hrows1).
    exists v1, s1. split; [reflexivity | congruence].
Qed.

Lemma opening_moves_from_returns remaining :
  forall moveIdx v s,
  exists v' s1,
    opening_moves_from rand_index remaining moveIdx v s = (Ret v', s1)
    /\ csv_rows s1 = csv_rows s.
Proof.
  induction remaining as [|remaining IH]; intros moveIdx v s.
  - exists v, s. split; reflexivity.
  - cbn [opening_moves_from]. unfold bind.
    destruct (opening_full_move_returns moveIdx v s) as (v0 & s0 & -> & Hrows0).
    destruct (no_moves v0).
    + exists v0, s0. split; [reflexivity | exact Hrows0].
    + destruct (IH (S moveIdx) v0 s0) as (v1 & s1 & -> & Hrows1).
      exists v1, s1. split; [reflexivity | congruence].
Qed.

(** An attempt always comes back, and writes no row. *)
Lemma opening_attempt_returns b initial depth s :
  exists v s1,
    opening_attempt rand_index b initial depth s = (Ret v, s1)
    /\ csv_rows s1 = csv_rows s.
Proof. apply opening_moves_from_returns. Qed.

(** A ply on a board with no legal move changes nothing and leaves [moves]
    empty. *)
Lemma opening_ply_stuck moveIdx player v s :
  legal_moves chess (opening_board v) = [] ->
  opening_ply rand_index moveIdx player v s
  = (Ret {| opening_board := opening_board v;
            opening_game_state := opening_game_state v;
            opening_moves := [] |}, s).
Proof.
  intros Hnone. unfold opening_ply, bind, random_choice. rewrite Hnone.
  reflexivity.
Qed.

(** What a ply leaves in [moves], and what it leaves alone when that is
    empty. *)
Lemma opening_ply_inv moveIdx player v s v' s' :
  opening_ply rand_index moveIdx player v s = (Ret v', s') ->
  opening_moves v' = legal_moves chess (opening_board v)
  /\ (no_moves v' = true ->
      opening_board v' = opening_board v
      /\ opening_game_state v' = opening_game_state v /\ s' = s).
Proof.
  unfold opening_ply, bind, random_choice, no_moves.
  destruct (legal_moves chess (opening_board v)) as [|m0 moves] eqn:Hmoves.
  - intros [= <- <-]. cbn. repeat split.
  - destruct (rand_index (world s) (length (m0 :: moves))) as [i w].
    intros [= <- <-]. cbn. split; [reflexivity | discriminate].
Qed.

(** An attempt that ends with [moves] empty stands on a board without
    legal moves, unless it had no move to generate at all. *)
Lemma opening_moves_from_no_moves remaining :
  forall moveIdx v s v' s',
    opening_moves_from rand_index remaining moveIdx v s = (Ret v', s') ->
    no_moves v' = true ->
    (remaining = 0%nat /\ v' = v)
    \/ legal_moves chess (opening_board v') = [].
Proof.
  induction remaining as [|remaining IH]; intros moveIdx v s v' s' Hrun Hno.
  - cbn in Hrun. injection Hrun as <- <-. left. split; reflexivity.
  - right. cbn [opening_moves_from] in Hrun.
    apply bind_ret_inv in Hrun. destruct Hrun as (v1 & s1 & Hfull & Hrun).
    assert (Hfull' : no_moves v1 = true ->
                     legal_moves chess (opening_board v1) = []).
    { unfold opening_full_move in Hfull.
      apply bind_ret_inv in Hfull. destruct Hfull as (v0 & s0 & Hp0 & Hfull).
      apply opening_ply_inv in Hp0. destruct Hp0 as [Hm0 Hsame0].
      destruct (no_moves v0) eqn:Hno0.
      - injection Hfull as <- <-. intros _.
        destruct (Hsame0 eq_refl) as (-> & _). rewrite <- Hm0.
        unfold no_moves in Hno0. destruct (opening_moves v0); [reflexivity |].
        discriminate.
      - apply opening_ply_inv in Hfull. destruct Hfull as [Hm1 Hsame1].
        intros Hno1. destruct (Hsame1 Hno1) as (-> & _). rewrite <- Hm1.
        unfold no_moves in Hno1. destruct (opening_moves v1); [reflexivity |].
        discriminate. }
    destruct (no_moves v1) eqn:Hno1.
    + injection Hrun as <- <-. apply Hfull'. reflexivity.
    + destruct (IH _ _ _ _ _ Hrun Hno) as [(-> & ->) | Hnone];
        [congruence | exact Hnone].
Qed.

(** An attempt that meets a board with no legal move before a full move
    stops there, with [moves] empty. *)
Lemma opening_moves_from_stuck remaining moveIdx v s :
  legal_moves chess (opening_board v) = [] ->
  exists v',
    opening_moves_from rand_index (S remaining) moveIdx v s = (Ret v', s)
    /\ no_moves v' = true
    /\ opening_board v' = opening_board v
    /\ opening_game_state v' = opening_game_state v.
Proof.
  intros Hnone. cbn [opening_moves_from]. unfold bind at 1.
  unfold opening_full_move, bind at 1.
  rewrite (opening_ply_stuck _ _ _ _ Hnone). cbn.
  eexists. split; [reflexivity |]. repeat split.
Qed.

(** The same when the board has no legal move after the first half of a
    full move. *)
Lemma opening_moves_from_stuck_second remaining moveIdx v s v0 s0 :
  opening_ply rand_index moveIdx 0 v s = (Ret v0, s0) ->
  no_moves v0 = false ->
  legal_moves chess (opening_board v0) = [] ->
  exists v',
    opening_moves_from rand_index (S remaining) moveIdx v s = (Ret v', s0)
    /\ no_moves v' = true
    /\ opening_board v' = opening_board v0
    /\ opening_game_state v' = opening_game_state v0.
Proof.
  intros Hp0 Hno0 Hnone. cbn [opening_moves_from]. unfold bind at 1.
  unfold opening_full_move, bind at 1. rewrite Hp0, Hno0.
  rewrite (opening_ply_stuck _ _ _ _ Hnone). cbn.
  eexists. split; [reflexivity |]. repeat split.
Qed.

Lemma failed_attempts_rows initial depth b s n b' s' :
  failed_attempts rand_index initial depth b s n b' s' ->
  csv_rows s' = csv_rows s.
Proof.
  induction 1 as [| b s v s1 n b' s' Hrun _ _ IH]; [reflexivity |].
  destruct (opening_attempt_returns b initial depth s) as (v0 & s0 & Hrun0 & Hrows).
  rewrite Hrun in Hrun0. injection Hrun0 as <- <-. congruence.
Qed.

(** The attempt loop: a run of failed attempts, then either an attempt
    that produced moves, or the exception once the attempts are used up. *)
Lemma initialize_attempts_spec initial depth :
  forall remaining b s r s',
    initialize_attempts rand_index remaining b initial depth s = (r, s') ->
    (exists n b1 s1 v,
        (n < remaining)%nat
        /\ failed_attempts rand_index initial depth b s n b1 s1
        /\ opening_attempt rand_index b1 initial depth s1 = (Ret v, s')
        /\ no_moves v = false
        /\ r = Ret (opening_game_state v, opening_board v))
    \/ (exists b1,
          failed_attempts rand_index initial depth b s remaining b1 s'
          /\ r = Raise
                   (Exception "Failed to initialize the game after maximum attempts.")).
Proof.
  induction remaining as [|remaining IH]; intros b s r s' Hrun.
  - cbn in Hrun. injection Hrun as <- <-. right. exists b.
    split; [apply failed_none | reflexivity].
  - cbn [initialize_attempts] in Hrun. unfold bind at 1 in Hrun.
    destruct (opening_attempt_returns b initial depth s) as (v & s1 & Hatt & _).
    rewrite Hatt in Hrun. destruct (no_moves v) eqn:Hno.
    + apply IH in Hrun.
      destruct Hrun as [(n & b1 & s2 & v' & Hn & Hfail & Hatt' & Hno' & ->)
                       | (b1 & Hfail & ->)].
      * left. exists (S n), b1, s2, v'. split; [lia |].
        split; [eapply failed_next; eassumption |]. repeat split; assumption.
      * right. exists b1. split; [eapply failed_next; eassumption | reflexivity].
    + injection Hrun as <- <-. left. exists 0%nat, b, s, v.
      split; [lia |]. split; [apply failed_none |]. repeat split; assumption.
Qed.

(** C9. The random opening makes at most 5 attempts, each one started from
    the board reset and the initial transcript; an attempt that ends with no
    legal move to choose from is dropped and the next one starts afresh; an
    attempt that meets a board without legal moves ends that way; when all
    5 attempts are dropped the exception is raised, and then the game raises
    too, before any row is written. *)
Theorem random_opening_retries (b : Board chess) (initial : string) (depth : Z)
    s r s' :
  initialize_game_with_random_moves rand_index b initial depth s = (r, s') ->
  ((exists n b1 s1 v,
       (n < 5)%nat
       /\ failed_attempts rand_index initial depth b s n b1 s1
       /\ opening_moves_from rand_index (Z.to_nat depth) 1
            {| opening_board := reset chess b1;
               opening_game_state := initial;
               opening_moves := [] |} s1 = (Ret v, s')
       /\ no_moves v = false
       /\ r = Ret (opening_game_state v, opening_board v))
   \/ (exists b1,
         failed_attempts rand_index initial depth b s 5 b1 s'
         /\ r = Raise
                  (Exception "Failed to initialize the game after maximum attempts.")))
  /\ csv_rows s' = csv_rows s
  /\ (forall remaining moveIdx v0 s0,
        legal_moves chess (opening_board v0) = [] ->
        exists v1,
          opening_moves_from rand_index (S remaining) moveIdx v0 s0 = (Ret v1, s0)
          /\ no_moves v1 = true)
  /\ (forall remaining moveIdx v0 s0 v1 s1,
        opening_ply rand_index moveIdx 0 v0 s0 = (Ret v1, s1) ->
        no_moves v1 = false ->
        legal_moves chess (opening_board v1) = [] ->
        exists v2,
          opening_moves_from rand_index (S remaining) moveIdx v0 s0 = (Ret v2, s1)
          /\ no_moves v2 = true)
  /\ (forall b1 s1 v1 s2,
        opening_attempt rand_index b1 initial depth s1 = (Ret v1, s2) ->
        no_moves v1 = true ->
        Z.to_nat depth = 0%nat \/ legal_moves chess (opening_board v1) = [])
  /\ (forall (player_one player_two : Player chess W) e,
        b = new_board chess ->
        r = Raise e ->
        play_one_game rand_index player_one player_two initial (Some depth) s
        = (Raise e, s')).
Proof.
  intros Hrun. unfold initialize_game_with_random_moves in Hrun.
  pose proof (initialize_attempts_spec _ _ _ _ _ _ _ Hrun) as Hspec.
  split; [exact Hspec |]. split; [| split; [| split; [| split]]].
  - destruct Hspec as [(n & b1 & s1 & v & _ & Hfail & Hatt & _) | (b1 & Hfail & _)].
    + apply failed_attempts_rows in Hfail.
      destruct (opening_attempt_returns b1 initial depth s1)
        as (v0 & s0 & Hatt0 & Hrows).
      rewrite Hatt in Hatt0. injection Hatt0 as <- <-. congruence.
    + apply failed_attempts_rows in Hfail. exact Hfail.
  - intros remaining moveIdx v0 s0 Hnone.
    destruct (opening_moves_from_stuck remaining moveIdx v0 s0 Hnone)
      as (v1 & Hv1 & Hno & _).
    exists v1. split; assumption.
  - intros remaining moveIdx v0 s0 v1 s1 Hp0 Hno0 Hnone.
    destruct (opening_moves_from_stuck_second remaining moveIdx v0 s0 v1 s1
                Hp0 Hno0 Hnone) as (v2 & Hv2 & Hno & _).
    exists v2. split; assumption.
  - intros b1 s1 v1 s2 Hatt Hno. unfold opening_attempt in Hatt.
    destruct (opening_moves_from_no_moves _ _ _ _ _ _ Hatt Hno) as [(H0 & _) | H];
      [left; exact H0 | right; exact H].
  - intros player_one player_two e -> ->.
    unfold play_one_game, bind at 1.
    unfold initialize_game_with_random_moves. rewrite Hrun. reflexivity.
Qed.

End Opening.

(** ** Examples on the small oracle *)

(** C1 at work: five answers that parse to an illegal move. *)
Lemma attempts_in_range_witness :
  get_legal_move (Toy.always 1000 Toy.model_config (Some "Qh5")) [] "" true 5
    Toy.start
  = (Ret (exhausted_response 5), set_world 5%nat Toy.start)
  /\ (0 <= 5 <= 5)%nat
  /\ (5%nat = 5%nat <-> true = true).
Proof.
  split; [vm_compute; reflexivity |].
  apply (attempts_in_range (Toy.always 1000 Toy.model_config (Some "Qh5")) []
           "" true Toy.start (exhausted_response 5) (set_world 5%nat Toy.start)).
  vm_compute; reflexivity.
Defined.

(** C3: an engine-backed agent (its configuration has a skill level and a
    play time, and no "model") answers no text; the lookup in the handler
    raises [KeyError] and the turn resolution is aborted at the first
    attempt. *)
Theorem parse_failure_aborts_engine_agent :
  get_legal_move (Toy.always 1000 Toy.engine_config None) [] "" true 5 Toy.start
  = (Raise (KeyError "model"), set_world 1%nat Toy.start).
Proof. vm_compute. reflexivity. Qed.

(** C6 at work: the agent answers "1-0" on its third attempt. *)
Lemma result_marker_is_resignation_witness :
  exists r,
    get_legal_move_from
      (Toy.scripted 1000 Toy.model_config [Some "Qh5"; Some "Qh5"; Some "1-0"])
      [] "" 5 (S 2) 2 (set_world 2%nat Toy.start)
    = (Ret r, set_world 3%nat (set_world 2%nat Toy.start))
    /\ move_san r = None /\ move_uci r = None
    /\ is_resignation r = true /\ is_illegal_move r = false
    /\ attempts r = 2%nat
    /\ play_turn_branch r = ResignedBranch.
Proof.
  apply (result_marker_is_resignation
           (Toy.scripted 1000 Toy.model_config [Some "Qh5"; Some "Qh5"; Some "1-0"])
           [] "" 5 2 2 (set_world 2%nat Toy.start) "1-0" 3%nat).
  - reflexivity.
  - left. reflexivity.
Defined.

(** C10 at work: no text on the first attempt, a legal move on the second. *)
Lemma response_is_move_resignation_or_exhaustion_witness :
  let player := Toy.scripted 1000 Toy.model_config [None; Some "e4"] in
  let r := legal_response (chess := Toy.oracle 1000) " e4" 0%nat 1 in
  play_turn_branch r <> NoMoveBranch
  /\ (0 < attempts r)%nat.
Proof.
  intros player r.
  destruct (response_is_move_resignation_or_exhaustion player [] "1." 5 5 0
              Toy.start r
              (append_illegal_moves_file
                 ("1." ++ Str.newline ++ "None" ++ Str.newline)
                 (set_world 2%nat Toy.start)))
    as (_ & Hbranch & Hnone).
  - reflexivity.
  - vm_compute. reflexivity.
  - split; [exact Hbranch |].
    destruct (Hnone 4%nat 1%nat) as [Hcount _]; [reflexivity | reflexivity |].
    exact Hcount.
Defined.

(** C2 at work: White has played e4, Black answers "1-0". *)
Lemma resignation_or_exhaustion_decides_scores_witness :
  let white := Toy.always 1000 Toy.model_config (Some "e4") in
  let black := Toy.always 1000 Toy.model_config (Some "1-0") in
  let run :=
    record_results (chess := Toy.oracle 1000) [0%nat] white black "1. e4"
      0 0 1 1 false true false false 1 0 (set_world 2%nat Toy.start) in
  exists d,
    csv_rows (snd run) = ([] ++ [d])%list
    /\ result_text d = "1-0"
    /\ player_one_score d = ScoreInt 1 /\ player_two_score d = ScoreInt 0.
Proof.
  intros white black run.
  assert (Hrun : run = (Ret tt, snd run)) by (vm_compute; reflexivity).
  subst run.
  destruct (resignation_or_exhaustion_decides_scores _ _ _ _ _ _ _ _ _ _ _ _ _ _
              _ _ Hrun) as (d & Hrows & _ & Htwo & _).
  exists d. split; [exact Hrows |]. apply Htwo; reflexivity.
Defined.

(** C4 at work: a game the oracle calls a draw; both scores are the text
    "1/2". *)
Lemma score_invariant_witness :
  let white := Toy.always 4 Toy.model_config (Some "e4") in
  let black := Toy.always 4 Toy.model_config (Some "Nf3") in
  let run :=
    record_results (chess := Toy.oracle 4) [1%nat; 0%nat; 1%nat; 0%nat]
      white black "1. e4 Nf3 2. e4 Nf3"
      0 0 2 2 false false false false 2 0 (set_world 4%nat Toy.start) in
  exists d q1 q2,
    csv_rows (snd run) = ([] ++ [d])%list
    /\ player_one_score d = ScoreStr "1/2"
    /\ score_value (player_one_score d) = Some q1
    /\ score_value (player_two_score d) = Some q2
    /\ (q1 + q2 == 0 \/ q1 + q2 == 1)%Q.
Proof.
  intros white black run.
  assert (Hrun : run = (Ret tt, snd run)) by (vm_compute; reflexivity).
  subst run.
  assert (Hnatural :
            Str.contains_char "-"
              (result (Toy.oracle 4) [1%nat; 0%nat; 1%nat; 0%nat]) = true ->
            is_result_marker
              (result (Toy.oracle 4) [1%nat; 0%nat; 1%nat; 0%nat]) = true)
    by (intros _; reflexivity).
  destruct (score_invariant _ _ _ _ _ _ _ _ _ _ _ _ _ _ _ _ Hnatural Hrun)
    as (d & Hrows & Hsum & _).
  assert (Hd : player_one_score d = ScoreStr "1/2"
               /\ player_two_score d = ScoreStr "1/2").
  { vm_compute in Hrows. injection Hrows as <-. split; reflexivity. }
  destruct Hd as [Hd1 Hd2].
  destruct Hsum as (q1 & q2 & H1 & H2 & H12).
  - rewrite Hd1. reflexivity.
  - rewrite Hd2. reflexivity.
  - exists d, q1, q2. repeat split; assumption.
Defined.

(** C5, the claim as worded: on a board where every move is legal and the
    game never ends, with both agents always answering a legal move, the
    loop runs 90 passes and 180 half-moves are played, twice the
    MAX_MOVES + 1 = 90 the wording allows. *)
Lemma ply_cap_counterexample :
  ~ Toy.ends_at_ply_cap 1000
      (Toy.always 1000 Toy.model_config (Some "e4"))
      (Toy.always 1000 Toy.model_config (Some "Nf3")).
Proof.
  unfold Toy.ends_at_ply_cap. intros H.
  destruct (game_loop game_fuel
              (Toy.always 1000 Toy.model_config (Some "e4"))
              (Toy.always 1000 Toy.model_config (Some "Nf3"))
              (initial_vars (chess := Toy.oracle 1000) [] "") Toy.start)
    as [[[v|]|e] s'] eqn:Hrun.
  - specialize (H v s' eq_refl).
    vm_compute in Hrun. injection Hrun as <- <-.
    vm_compute in H. apply H. reflexivity.
  - vm_compute in Hrun. discriminate Hrun.
  - vm_compute in Hrun. discriminate Hrun.
Qed.

(** The same game: 90 passes and 180 half-moves, result "*". *)
Example move_cap_game :
  match game_loop game_fuel
          (Toy.always 1000 Toy.model_config (Some "e4"))
          (Toy.always 1000 Toy.model_config (Some "Nf3"))
          (initial_vars (chess := Toy.oracle 1000) [] "") Toy.start with
  | (Ret (Some v), _) =>
      total_moves v = 90 /\ length (board v) = 180%nat
      /\ result (Toy.oracle 1000) (board v) = "*"
  | _ => False
  end.
Proof. vm_compute. repeat split. Qed.

(** C5 at work, as the code has it: a game over after two half-moves. *)
Lemma move_cap_counts_passes_witness :
  let white := Toy.always 2 Toy.model_config (Some "e4") in
  let black := Toy.always 2 Toy.model_config (Some "Nf3") in
  let run :=
    game_loop game_fuel white black (initial_vars (chess := Toy.oracle 2) [] "")
      Toy.start in
  exists v,
    run = (Ret (Some v), snd run)
    /\ total_moves v = 1
    /\ 0 <= total_moves v <= MAX_MOVES + 1.
Proof.
  intros white black run.
  assert (Hrun : run = (Ret (match fst run with
                             | Ret o => o
                             | Raise _ => None
                             end), snd run)) by (vm_compute; reflexivity).
  subst run.
  destruct (move_cap_counts_passes white black [] "" Toy.start _ _ Hrun)
    as ((v & Ho & Hrange & _) & _ & _ & _).
  exists v. split; [| split; [| exact Hrange]].
  - rewrite <- Ho. exact Hrun.
  - vm_compute in Ho. injection Ho as <-. reflexivity.
Defined.

(** The small oracle meets what the transcript theorem asks. *)
Lemma toy_legal_text_is_token (limit : nat) :
  forall (b : Board (Toy.oracle limit)) text uci,
    parse_san (Toy.oracle limit) b text = Some uci ->
    uci ∈ legal_moves (Toy.oracle limit) b ->
    is_move_token (san_token text) = true.
Proof.
  intros b text uci Hparse _. cbn in Hparse. unfold Toy.parse in Hparse.
  repeat match type of Hparse with
         | context [String.eqb text ?t] =>
             destruct (String.eqb_spec text t) as [-> | _]; [reflexivity |]
         end.
  discriminate Hparse.
Qed.

Lemma toy_fullmove_number_positive (limit : nat) :
  forall b : Board (Toy.oracle limit),
    (1 <= fullmove_number (Toy.oracle limit) b)%nat.
Proof. intros b. cbn. lia. Qed.

Lemma toy_fullmove_number_pair (limit : nat) :
  forall (b : Board (Toy.oracle limit)) m1 m2,
    fullmove_number (Toy.oracle limit)
      (push (Toy.oracle limit) (push (Toy.oracle limit) b m1) m2)
    = S (fullmove_number (Toy.oracle limit) b).
Proof.
  intros b m1 m2. cbn [fullmove_number push Toy.oracle length]. f_equal.
  replace (S (S (length b))) with (length b + 1 * 2)%nat by lia.
  rewrite Nat.div_add by lia. lia.
Qed.

(** C7 at work: two full moves, Black answering with a leading space. *)
Lemma transcript_round_trip_witness :
  let white := Toy.always 4 Toy.model_config (Some "e4") in
  let black := Toy.always 4 Toy.model_config (Some " e4") in
  let run :=
    game_loop 5 white black (initial_vars (chess := Toy.oracle 4) [] "")
      Toy.start in
  let v' := match fst run with
            | Ret (Some v) => v
            | _ => initial_vars (chess := Toy.oracle 4) [] ""
            end in
  game_state v' = "1. e4 e4 2. e4 e4"
  /\ exists events,
       replay (chess := Toy.oracle 4) [] events = Some (board v')
       /\ game_state v' = ("" ++ render events)%string
       /\ moves_of_transcript (render events) = played_texts events.
Proof.
  intros white black run v'. split; [vm_compute; reflexivity |].
  assert (Hrun : run = (Ret (Some v'), snd run)) by (vm_compute; reflexivity).
  destruct (transcript_round_trip (toy_legal_text_is_token 4)
              (toy_fullmove_number_positive 4) (toy_fullmove_number_pair 4)
              white black 5 (initial_vars (chess := Toy.oracle 4) [] "")
              Toy.start v' (snd run) Hrun)
    as (events & Hrep & Htext & Hmoves & _).
  exists events. split; [exact Hrep | split; [exact Htext | exact Hmoves]].
Defined.

(** The round trip on that game, computed. *)
Example toy_round_trip :
  moves_of_transcript "1. e4 e4 2. e4 e4" = ["e4"; "e4"; "e4"; "e4"].
Proof. vm_compute. reflexivity. Qed.

(** C8 at work: White needs two attempts, Black one. *)
Lemma counters_per_pass_witness :
  let white := Toy.scripted 1000 Toy.model_config [Some "Qh5"; Some "e4"] in
  let black := Toy.always 1000 Toy.model_config (Some "Nf3") in
  let v := initial_vars (chess := Toy.oracle 1000) [] "" in
  let run := game_iteration white black v Toy.start in
  exists f t1 s1,
    fst run = Ret f
    /\ play_turn white (board (begin_full_move v)) (game_state (begin_full_move v))
         true Toy.start = (Ret t1, s1)
    /\ player_one_legal_moves (after_turn_one (begin_full_move v) t1)
       = 0 + 1 - discount (turn_illegal_moves t1)
    /\ player_one_illegal_moves (flow_vars f) = 1
    /\ player_one_legal_moves (flow_vars f) = 0
    /\ player_two_legal_moves (flow_vars f) = 1.
Proof.
  intros white black v run.
  assert (Hrun : run = (Ret (match fst run with
                             | Ret f => f
                             | Raise _ => Break v
                             end), snd run)) by (vm_compute; reflexivity).
  subst run.
  destruct (counters_per_pass white black v Toy.start _ _ Hrun)
    as (t1 & s1 & Ht1 & _ & _ & _ & _ & _ & Hlegal & _).
  eexists _, t1, s1. split; [rewrite Hrun; reflexivity |].
  split; [exact Ht1 |]. split; [exact Hlegal |].
  vm_compute. repeat split.
Defined.

(** C9 at work: the game is over after 5 half-moves and 3 full moves are
    asked for; every attempt meets a board without legal moves. *)
Lemma random_opening_retries_witness :
  let white := Toy.always 5 Toy.model_config (Some "e4") in
  let run :=
    initialize_game_with_random_moves (chess := Toy.oracle 5) Toy.rand_index
      [] ";" 3 Toy.start in
  fst run = Raise (Exception "Failed to initialize the game after maximum attempts.")
  /\ csv_rows (snd run) = []
  /\ play_one_game Toy.rand_index white white ";" (Some 3) Toy.start
     = (Raise (Exception "Failed to initialize the game after maximum attempts."),
        snd run).
Proof.
  intros white run.
  assert (Hrun : run = (fst run, snd run)) by (destruct run; reflexivity).
  subst run.
  destruct (random_opening_retries (chess := Toy.oracle 5) Toy.rand_index []
              ";" 3 Toy.start _ _ Hrun)
    as (_ & Hrows & _ & _ & _ & Hgame).
  split; [vm_compute; reflexivity |]. split; [exact Hrows |].
  apply Hgame; [reflexivity | vm_compute; reflexivity].
Defined.

(** * More properties of the code *)

(** ** The urgency hint *)

Section Hint.

Local Open Scope Q_scope.

Lemma urgency_hint_eq (attempt max_attempts : nat) :
  urgency_hint attempt max_attempts
  == Qmin (inject_Z (Z.of_nat attempt) / inject_Z (Z.of_nat max_attempts) * 1
           + (1 # 1000)) (1 # 2).
Proof. unfold urgency_hint. apply Qred_correct. Qed.

Lemma ratio_nonneg (attempt max_attempts : nat) :
  0 <= inject_Z (Z.of_nat attempt) / inject_Z (Z.of_nat max_attempts).
Proof.
  unfold Qdiv. apply Qmult_le_0_compat.
  - change 0 with (inject_Z 0). rewrite <- Zle_Qle. lia.
  - apply Qinv_le_0_compat. change 0 with (inject_Z 0). rewrite <- Zle_Qle. lia.
Qed.

Lemma ratio_monotone (a b max_attempts : nat) :
  (a <= b)%nat ->
  inject_Z (Z.of_nat a) / inject_Z (Z.of_nat max_attempts)
  <= inject_Z (Z.of_nat b) / inject_Z (Z.of_nat max_attempts).
Proof.
  intros Hab. unfold Qdiv. apply Qmult_le_compat_r.
  - rewrite <- Zle_Qle. lia.
  - apply Qinv_le_0_compat. change 0 with (inject_Z 0). rewrite <- Zle_Qle. lia.
Qed.

(** X1. The hint handed to the agent lies between 0.001 and 0.5, is 0.001
    on the first attempt, and never goes down from one attempt to the
    next. *)
Theorem urgency_hint_bounds (a b max_attempts : nat) :
  (a <= b < max_attempts)%nat ->
  (1 # 1000) <= urgency_hint a max_attempts
  /\ urgency_hint a max_attempts <= urgency_hint b max_attempts
  /\ urgency_hint b max_attempts <= (1 # 2)
  /\ urgency_hint 0 max_attempts == (1 # 1000).
Proof.
  intros [Hab _]. rewrite !urgency_hint_eq. repeat split.
  - apply Q.min_glb; [| discriminate].
    rewrite Qmult_1_r. rewrite <- (Qplus_0_l (1 # 1000)) at 1.
    apply Qplus_le_compat; [apply ratio_nonneg | apply Qle_refl].
  - apply Q.min_le_compat_r. rewrite !Qmult_1_r.
    apply Qplus_le_compat; [apply ratio_monotone, Hab | apply Qle_refl].
  - apply Q.le_min_r.
  - change (inject_Z (Z.of_nat 0)) with 0. unfold Qdiv.
    rewrite !Qmult_0_l, Qplus_0_l. apply Q.min_l. discriminate.
Qed.

End Hint.

(** ** What a turn resolution touches *)

Section TurnEffects.

Context {chess : RulesOracle} {W : Type}.
Implicit Types (player : Player chess W) (s : Sys W).

Local Open Scope string_scope.

Lemma on_parse_error_effects player game_state text s r s1 :
  on_parse_error player game_state text s = (r, s1) ->
  csv_rows s1 = csv_rows s
  /\ (exists extra,
        illegal_moves_file s1 = illegal_moves_file s ++ extra
        /\ (get_config player !! "model" <> Some "gpt-3.5-turbo-instruct" ->
            extra = ""))
  /\ (forall e, r = Raise e ->
        e = KeyError "model" /\ get_config player !! "model" = None).
Proof.
  destruct (get_config player !! "model") as [model|] eqn:Hm.
  - rewrite (on_parse_error_model _ _ _ _ _ Hm). intros [= <- <-].
    destruct (String.eqb_spec model "gpt-3.5-turbo-instruct") as [-> | Hne].
    + split; [reflexivity |]. split; [| discriminate].
      eexists. split; [reflexivity |]. intros H. congruence.
    + split; [reflexivity |]. split; [| discriminate].
      exists "". split; [symmetry; apply str_app_nil_r | reflexivity].
  - rewrite (on_parse_error_no_model _ _ _ _ Hm). intros [= <- <-].
    split; [reflexivity |]. split.
    + exists "". split; [symmetry; apply str_app_nil_r | reflexivity].
    + intros e [= <-]. split; reflexivity.
Qed.

Lemma get_legal_move_from_effects player (b : Board chess) game_state
    max_attempts :
  forall remaining attempt s r s',
    get_legal_move_from player b game_state max_attempts remaining attempt s
      = (r, s') ->
    csv_rows s' = csv_rows s
    /\ (exists extra,
          illegal_moves_file s' = illegal_moves_file s ++ extra
          /\ (get_config player !! "model" <> Some "gpt-3.5-turbo-instruct" ->
              extra = ""))
    /\ (forall e, r = Raise e ->
          e = KeyError "model" /\ get_config player !! "model" = None).
Proof.
  induction remaining as [|remaining IH]; intros attempt s r s' Hrun.
  - cbn in Hrun. injection Hrun as <- <-. split; [reflexivity |]. split.
    + exists "". split; [symmetry; apply str_app_nil_r | reflexivity].
    + discriminate.
  - destruct (get_move player (world s) b game_state
                (urgency_hint attempt max_attempts)) as [text w'] eqn:Hmove.
    rewrite (get_legal_move_from_step _ _ _ _ _ _ _ _ _ Hmove) in Hrun.
    assert (Hsame : csv_rows s' = csv_rows (set_world w' s)
            /\ (exists extra,
                  illegal_moves_file s'
                  = illegal_moves_file (set_world w' s) ++ extra
                  /\ (get_config player !! "model"
                      <> Some "gpt-3.5-turbo-instruct" -> extra = ""))
            /\ (forall e, r = Raise e ->
                  e = KeyError "model" /\ get_config player !! "model" = None));
      [| exact Hsame].
    destruct (answers_result_marker text).
    { injection Hrun as <- <-. split; [reflexivity |]. split; [| discriminate].
      exists "". split; [symmetry; apply str_app_nil_r | reflexivity]. }
    destruct (try_parse_san b text) as [[t uci]|].
    + destruct (bool_decide _).
      * injection Hrun as <- <-. split; [reflexivity |]. split; [| discriminate].
        exists "". split; [symmetry; apply str_app_nil_r | reflexivity].
      * apply IH in Hrun. exact Hrun.
    + destruct (on_parse_error player game_state text (set_world w' s))
        as [[[]|e] s1] eqn:Hhandler;
        apply on_parse_error_effects in Hhandler;
        destruct Hhandler as (Hrows1 & (extra1 & Hfile1 & Hextra1) & Hraise1).
      * apply IH in Hrun.
        destruct Hrun as (Hrows2 & (extra2 & Hfile2 & Hextra2) & Hraise2).
        split; [congruence |]. split; [| exact Hraise2].
        exists (extra1 ++ extra2). split.
        -- rewrite Hfile2, Hfile1. apply str_app_assoc.
        -- intros Hne. rewrite (Hextra1 Hne), (Hextra2 Hne). reflexivity.
      * injection Hrun as <- <-. split; [exact Hrows1 |].
        split; [exists extra1; split; assumption |].
        intros e0 [= <-]. apply Hraise1. reflexivity.
Qed.

(** X2. Whatever [get_legal_move] does, it writes no result row; the
    diagnostic file keeps what it held and only grows, and it is left as it
    was unless the player's "model" entry is "gpt-3.5-turbo-instruct"; the
    only exception that can leave the call is [KeyError] on "model", and
    only for a player whose configuration has no such entry. *)
Theorem get_legal_move_effects player (b : Board chess) game_state player_one
    max_attempts s r s' :
  get_legal_move player b game_state player_one max_attempts s = (r, s') ->
  csv_rows s' = csv_rows s
  /\ (exists extra,
        illegal_moves_file s' = illegal_moves_file s ++ extra
        /\ (get_config player !! "model" <> Some "gpt-3.5-turbo-instruct" ->
            extra = ""))
  /\ (forall e, r = Raise e ->
        e = KeyError "model" /\ get_config player !! "model" = None).
Proof. unfold get_legal_move. apply get_legal_move_from_effects. Qed.

Lemma play_turn_effects player (b : Board chess) game_state player_one s r s' :
  play_turn player b game_state player_one s = (r, s') ->
  csv_rows s' = csv_rows s
  /\ (forall e, r = Raise e ->
        e = KeyError "model" /\ get_config player !! "model" = None).
Proof.
  unfold play_turn, bind.
  destruct (get_legal_move player b game_state player_one 5 s) as [[resp|e] s1]
    eqn:Hrun; apply get_legal_move_from_effects in Hrun;
    destruct Hrun as (Hrows & _ & Hraise).
  - destruct (play_turn_branch resp); intros [= <- <-];
      (split; [exact Hrows | discriminate]).
  - intros [= <- <-]. split; [exact Hrows |].
    intros e0 [= <-]. apply Hraise. reflexivity.
Qed.

End TurnEffects.

(** ** Whole games *)

Section Games.

Context {chess : RulesOracle} {W : Type}.
Implicit Types (v : GameVars chess) (s : Sys W).

(** Induction over the passes of the [while] loop: [I] holds where a pass
    starts, [R] relates where the loop starts to where it ends. *)
Lemma game_loop_induction (player_one player_two : Player chess W)
    (I : GameVars chess -> Prop) (R : GameVars chess -> GameVars chess -> Prop) :
  (forall v, I v -> R v v) ->
  (forall v s f s',
      I v -> is_game_over chess (board v) = false ->
      game_iteration player_one player_two v s = (Ret f, s') ->
      match f with
      | Break v' => R v v'
      | Continue v1 => I v1 /\ forall v', R v1 v' -> R v v'
      end) ->
  forall fuel v s v' s',
    I v ->
    game_loop fuel player_one player_two v s = (Ret (Some v'), s') ->
    R v v'.
Proof.
  intros Hrefl Hpass. induction fuel as [|fuel IH]; intros v s v' s' Hv Hrun;
    cbn [game_loop] in Hrun.
  - destruct (is_game_over chess (board v)); [| discriminate].
    injection Hrun as <- <-. apply Hrefl, Hv.
  - destruct (is_game_over chess (board v)) eqn:Hover.
    { injection Hrun as <- <-. apply Hrefl, Hv. }
    apply bind_ret_inv in Hrun. destruct Hrun as (f & s1 & Hiter & Hrun).
    pose proof (Hpass v s f s1 Hv Hover Hiter) as Hf.
    destruct f as [v1 | v1].
    + injection Hrun as <- <-. exact Hf.
    + destruct Hf as [Hv1 Hstep]. apply Hstep. eapply IH; eassumption.
Qed.

Lemma legal_path_app (b : Board chess) moves1 moves2 :
  legal_path b (moves1 ++ moves2)
  = match legal_path b moves1 with
    | Some b' => legal_path b' moves2
    | None => None
    end.
Proof.
  revert b. induction moves1 as [|m moves1 IH]; intros b; [reflexivity |].
  cbn [legal_path app]. destruct (bool_decide _); [apply IH | reflexivity].
Qed.

(** One turn pushes nothing, and sets a flag, or pushes one legal move. *)
Lemma play_turn_moves (player : Player chess W) (b : Board chess) text0
    player_one s t s' :
  play_turn player b text0 player_one s = (Ret t, s') ->
  (turn_board t = b
   /\ (turn_resignation t = true \/ turn_failed_to_find_legal_move t = true))
  \/ (exists uci,
        legal_path b [uci] = Some (turn_board t)
        /\ turn_resignation t = false
        /\ turn_failed_to_find_legal_move t = false).
Proof.
  intros Hturn. apply play_turn_cases in Hturn.
  destruct Hturn as [(text & uci & _ & Hl & Hb & _ & Hr & Hf & _) | (Hb & _ & H)].
  - right. exists uci. cbn [legal_path].
    rewrite bool_decide_eq_true_2 by exact Hl. rewrite Hb. repeat split; assumption.
  - left. split; [exact Hb |]. tauto.
Qed.

(** The moves of one pass: at most two, exactly two when the loop goes
    on. *)
Lemma game_iteration_moves (player_one player_two : Player chess W) v s f s' :
  game_iteration player_one player_two v s = (Ret f, s') ->
  exists moves,
    legal_path (board v) moves = Some (board (flow_vars f))
    /\ (length moves <= 2)%nat
    /\ total_moves (flow_vars f) = total_moves v + 1
    /\ (forall v1, f = Continue v1 -> length moves = 2%nat).
Proof.
  intros Hrun. apply game_iteration_inv in Hrun.
  destruct Hrun as (t1 & s1 & Ht1 & Hrest).
  apply play_turn_moves in Ht1.
  change (board (begin_full_move v)) with (board v) in Ht1.
  destruct Hrest as [(Hstop & -> & ->) | (Hstop & t2 & Ht2 & ->)].
  - cbn [flow_vars after_turn_one board total_moves begin_full_move].
    destruct Ht1 as [(Hb & _) | (uci & Hpath & _)].
    + exists []. rewrite Hb. repeat split; [cbn; lia | discriminate].
    + exists [uci]. repeat split; [exact Hpath | cbn; lia | discriminate].
  - apply play_turn_moves in Ht2.
    cbn [after_turn_one board] in Ht2.
    unfold stops_after_turn_one in Hstop.
    cbn [after_turn_one board player_one_resignation
         player_one_failed_to_find_legal_move] in Hstop.
    apply orb_false_elim in Hstop. destruct Hstop as [Hstop Hf1].
    apply orb_false_elim in Hstop. destruct Hstop as [_ Hr1].
    destruct Ht1 as [(_ & [H | H]) | (uci1 & Hpath1 & _)];
      [congruence | congruence |].
    cbn zeta.
    destruct Ht2 as [(Hb2 & Hflag2) | (uci2 & Hpath2 & _)].
    + exists [uci1].
      assert (Hstop2 : stops_after_turn_two
                (after_turn_two (after_turn_one (begin_full_move v) t1) t2)
              = true).
      { unfold stops_after_turn_two.
        cbn [after_turn_two player_two_resignation
             player_two_failed_to_find_legal_move].
        destruct Hflag2 as [-> | ->]; rewrite ?orb_true_r; reflexivity. }
      rewrite Hstop2. cbn [orb flow_vars after_turn_two board total_moves
        after_turn_one begin_full_move].
      rewrite Hb2. repeat split; [exact Hpath1 | cbn; lia | discriminate].
    + exists [uci1; uci2]. rewrite flow_vars_choice.
      cbn [after_turn_two board total_moves after_turn_one begin_full_move].
      split; [| repeat split; cbn; lia].
      change [uci1; uci2] with ([uci1] ++ [uci2])%list.
      rewrite legal_path_app, Hpath1. exact Hpath2.
Qed.

(** X3. From where the loop starts to where it ends, the board moves only by
    legal moves, pushed in order, and their number is twice the number of
    passes made, less at most two for the last pass. *)
Theorem game_pushes_legal_moves (player_one player_two : Player chess W)
    fuel v s v' s' :
  game_loop fuel player_one player_two v s = (Ret (Some v'), s') ->
  exists moves,
    legal_path (board v) moves = Some (board v')
    /\ 2 * (total_moves v' - total_moves v) - 2 <= Z.of_nat (length moves)
    /\ Z.of_nat (length moves) <= 2 * (total_moves v' - total_moves v).
Proof.
  apply (game_loop_induction player_one player_two (fun _ => True)
           (fun v v' =>
              exists moves,
                legal_path (board v) moves = Some (board v')
                /\ 2 * (total_moves v' - total_moves v) - 2
                   <= Z.of_nat (length moves)
                /\ Z.of_nat (length moves)
                   <= 2 * (total_moves v' - total_moves v))).
  - intros v0 _. exists []. cbn. repeat split; lia.
  - intros v0 s0 f s1 _ _ Hiter. apply game_iteration_moves in Hiter.
    destruct Hiter as (moves & Hpath & Hlen & Htotal & Hcont).
    destruct f as [v1 | v1]; cbn [flow_vars] in *.
    + exists moves. split; [exact Hpath |]. lia.
    + split; [exact I |]. intros v2 (moves' & Hpath' & Hlow & Hhigh).
      specialize (Hcont v1 eq_refl).
      exists (moves ++ moves')%list. rewrite legal_path_app, Hpath.
      split; [exact Hpath' |]. rewrite length_app. lia.
  - exact I.
Qed.

End Games.

(** ** Counters and flags of a whole game *)

Section Counters.

Context {chess : RulesOracle} {W : Type}.
Implicit Types (v : GameVars chess) (s : Sys W).

(** What a turn costs, against its flags. *)
Lemma play_turn_cost (player : Player chess W) (b : Board chess) text0
    player_one s t s' :
  play_turn player b text0 player_one s = (Ret t, s') ->
  (turn_illegal_moves t <= 5)%nat
  /\ (turn_failed_to_find_legal_move t = true -> turn_illegal_moves t = 5%nat)
  /\ (turn_resignation t = true -> turn_failed_to_find_legal_move t = false).
Proof.
  intros Hturn. apply play_turn_cases in Hturn.
  destruct Hturn as [(text & uci & _ & _ & _ & _ & Hr & Hf & Hc)
                    | (_ & _ & [(Hr & Hf & Hc) | (Hr & Hf & Hc)])];
    rewrite ?Hr, ?Hf; repeat split; try lia; try discriminate; auto.
Qed.

(** One pass keeps the counters within their bounds, leaves
    [illegal_moves] alone, and sets at most one flag. *)
Lemma game_iteration_counters (player_one player_two : Player chess W) v s f s' :
  counters_ok v -> no_flag v ->
  game_iteration player_one player_two v s = (Ret f, s') ->
  counters_ok (flow_vars f)
  /\ illegal_moves (flow_vars f) = illegal_moves v
  /\ (flag_count (flow_vars f) <= 1)%nat
  /\ (player_one_failed_to_find_legal_move (flow_vars f) = true ->
      5 <= player_one_illegal_moves (flow_vars f))
  /\ (player_two_failed_to_find_legal_move (flow_vars f) = true ->
      5 <= player_two_illegal_moves (flow_vars f))
  /\ (forall v1, f = Continue v1 -> no_flag v1).
Proof.
  intros Hok (Hr1 & Hf1 & Hr2 & Hf2) Hrun.
  unfold counters_ok in Hok.
  apply game_iteration_inv in Hrun.
  destruct Hrun as (t1 & s1 & Ht1 & Hrest).
  apply play_turn_cost in Ht1. destruct Ht1 as (Hc1 & Hfail1 & Hres1).
  destruct Hrest as [(Hstop & -> & ->) | (Hstop & t2 & Ht2 & ->)].
  - cbn [flow_vars]. unfold counters_ok, flag_count.
    cbn [after_turn_one begin_full_move total_moves illegal_moves
         player_one_illegal_moves player_two_illegal_moves
         player_one_legal_moves player_two_legal_moves
         player_one_resignation player_two_resignation
         player_one_failed_to_find_legal_move
         player_two_failed_to_find_legal_move].
    rewrite Hr2, Hf2.
    split; [| split; [reflexivity | split; [| split; [| split]]]].
    + destruct (Z.eqb_spec (Z.of_nat (turn_illegal_moves t1)) 0);
        cbn [negb]; lia.
    + destruct (turn_resignation t1) eqn:Hr; [rewrite (Hres1 eq_refl) |];
        destruct (turn_failed_to_find_legal_move t1); cbn; lia.
    + intros H. specialize (Hfail1 H). lia.
    + discriminate.
    + discriminate.
  - apply play_turn_cost in Ht2. destruct Ht2 as (Hc2 & Hfail2 & Hres2).
    unfold stops_after_turn_one in Hstop.
    cbn [after_turn_one player_one_resignation
         player_one_failed_to_find_legal_move] in Hstop.
    apply orb_false_elim in Hstop. destruct Hstop as [Hstop Hnf1].
    apply orb_false_elim in Hstop. destruct Hstop as [_ Hnr1].
    cbn zeta. rewrite flow_vars_choice. unfold counters_ok, flag_count.
    cbn [after_turn_two after_turn_one begin_full_move total_moves illegal_moves
         player_one_illegal_moves player_two_illegal_moves
         player_one_legal_moves player_two_legal_moves
         player_one_resignation player_two_resignation
         player_one_failed_to_find_legal_move
         player_two_failed_to_find_legal_move].
    rewrite Hnr1, Hnf1.
    split; [| split; [reflexivity | split; [| split; [| split]]]].
    + destruct (Z.eqb_spec (Z.of_nat (turn_illegal_moves t1)) 0);
        destruct (Z.eqb_spec (Z.of_nat (turn_illegal_moves t2)) 0);
        cbn [negb]; lia.
    + destruct (turn_resignation t2) eqn:Hr; [rewrite (Hres2 eq_refl) |];
        destruct (turn_failed_to_find_legal_move t2); cbn; lia.
    + discriminate.
    + intros H. specialize (Hfail2 H). lia.
    + intros v1 Hf.
      destruct (stops_after_turn_two _) eqn:Hstop2; cbn [orb] in Hf;
        [discriminate |].
      destruct (MAX_MOVES <? _); [discriminate |]. injection Hf as <-.
      unfold stops_after_turn_two in Hstop2.
      cbn [after_turn_two player_two_resignation
           player_two_failed_to_find_legal_move] in Hstop2.
      apply orb_false_elim in Hstop2. destruct Hstop2 as [Hstop2 Hnf2].
      apply orb_false_elim in Hstop2. destruct Hstop2 as [_ Hnr2].
      unfold no_flag. cbn. repeat split; assumption.
Qed.

(** X4. At the end of a game that started from fresh counters, each side's
    legal-turn counter lies between the number of passes less that side's
    illegal-move count and the number of passes, each illegal-move count is
    at most 5 a pass, the variable [illegal_moves] is still 0, at most one of
    the four flags is set, and a side flagged for failing to find a legal
    move has at least 5 illegal moves counted. *)
Theorem game_counters_invariant (player_one player_two : Player chess W)
    fuel (b0 : Board chess) (state0 : string) s v s' :
  game_loop fuel player_one player_two (initial_vars b0 state0) s
    = (Ret (Some v), s') ->
  counters_ok v
  /\ illegal_moves v = 0
  /\ (flag_count v <= 1)%nat
  /\ (player_one_failed_to_find_legal_move v = true ->
      5 <= player_one_illegal_moves v)
  /\ (player_two_failed_to_find_legal_move v = true ->
      5 <= player_two_illegal_moves v).
Proof.
  intros Hrun.
  assert (Hgoal :
    illegal_moves (initial_vars b0 state0) = 0 ->
    counters_ok v
    /\ illegal_moves v = 0
    /\ (flag_count v <= 1)%nat
    /\ (player_one_failed_to_find_legal_move v = true ->
        5 <= player_one_illegal_moves v)
    /\ (player_two_failed_to_find_legal_move v = true ->
        5 <= player_two_illegal_moves v)); [| apply Hgoal; reflexivity].
  revert Hrun.
  apply (game_loop_induction player_one player_two
           (fun v0 => counters_ok v0 /\ no_flag v0)
           (fun v0 v1 =>
              illegal_moves v0 = 0 ->
              counters_ok v1
              /\ illegal_moves v1 = 0
              /\ (flag_count v1 <= 1)%nat
              /\ (player_one_failed_to_find_legal_move v1 = true ->
                  5 <= player_one_illegal_moves v1)
              /\ (player_two_failed_to_find_legal_move v1 = true ->
                  5 <= player_two_illegal_moves v1))).
  - intros v0 [Hok (Hr1 & Hf1 & Hr2 & Hf2)] Hzero.
    split; [exact Hok |]. split; [exact Hzero |].
    unfold flag_count. rewrite Hr1, Hf1, Hr2, Hf2. cbn.
    repeat split; try lia; discriminate.
  - intros v0 s0 f s1 [Hok Hflags] _ Hiter.
    apply game_iteration_counters in Hiter; [| exact Hok | exact Hflags].
    destruct Hiter as (Hok' & Hill & Hcount & H1 & H2 & Hcont).
    destruct f as [v1 | v1]; cbn [flow_vars] in *.
    + intros Hzero.
      split; [exact Hok' | split; [congruence | split; [exact Hcount |]]].
      split; assumption.
    + split; [split; [exact Hok' | apply Hcont; reflexivity] |].
      intros v2 Hrest Hzero. apply Hrest. congruence.
  - split.
    + unfold counters_ok. cbn. lia.
    + unfold no_flag. cbn. repeat split.
Qed.

End Counters.

(** ** What a game and a batch write *)

Section Batches.

Context {chess : RulesOracle} {W : Type} (rand_index : W -> nat -> nat * W).
Implicit Types (v : GameVars chess) (s : Sys W).

(** [get_player_titles_and_time] either returns, or raises [KeyError] on
    the first entry it misses; the state stays as it was. *)
Lemma get_player_titles_and_time_cases (player_one player_two : Player chess W)
    s r s' :
  get_player_titles_and_time player_one player_two s = (r, s') ->
  s' = s
  /\ ((exists titles, r = Ret titles)
      \/ (exists key, r = Raise (KeyError key))).
Proof.
  unfold get_player_titles_and_time, bind.
  destruct (title_and_time (get_config player_one) s) as [[[t1 m1]|e1] s1] eqn:H1.
  - apply title_and_time_state in H1. subst s1.
    destruct (title_and_time (get_config player_two) s) as [[[t2 m2]|e2] s2] eqn:H2.
    + apply title_and_time_state in H2. subst s2. intros [= <- <-].
      split; [reflexivity |]. left. eexists. reflexivity.
    + pose proof (title_and_time_state _ _ _ _ H2). subst s2. intros [= <- <-].
      split; [reflexivity |]. right.
      unfold title_and_time, bind, dict_get, ret, raise in H2.
      destruct (get_config player_two !! "model"); [discriminate |].
      destruct (get_config player_two !! "skill_level");
        [| injection H2 as <-; eexists; reflexivity].
      destruct (get_config player_two !! "play_time");
        [discriminate | injection H2 as <-; eexists; reflexivity].
  - pose proof (title_and_time_state _ _ _ _ H1). subst s1. intros [= <- <-].
    split; [reflexivity |]. right.
    unfold title_and_time, bind, dict_get, ret, raise in H1.
    destruct (get_config player_one !! "model"); [discriminate |].
    destruct (get_config player_one !! "skill_level");
      [| injection H1 as <-; eexists; reflexivity].
    destruct (get_config player_one !! "play_time");
      [discriminate | injection H1 as <-; eexists; reflexivity].
Qed.

(** [record_results] writes its row, whole, or raises and writes nothing. *)
Lemma record_results_cases (b : Board chess)
    (player_one player_two : Player chess W) text
    i1 i2 l1 l2 r1 r2 f1 f2 tm im s r s' :
  record_results b player_one player_two text i1 i2 l1 l2 r1 r2 f1 f2 tm im s
    = (r, s') ->
  (r = Ret tt
   /\ exists d,
        s' = append_csv_row d s
        /\ transcript d = text
        /\ row_player_one_illegal_moves d = i1
        /\ row_player_two_illegal_moves d = i2
        /\ row_player_one_legal_moves d = l1
        /\ row_player_two_legal_moves d = l2
        /\ row_player_one_resignation d = r1
        /\ row_player_two_resignation d = r2
        /\ row_player_one_failed_to_find_legal_move d = f1
        /\ row_player_two_failed_to_find_legal_move d = f2
        /\ row_total_moves d = tm
        /\ row_illegal_moves d = im
        /\ number_of_moves d = fullmove_number chess b)
  \/ ((exists key, r = Raise (KeyError key)) /\ s' = s).
Proof.
  unfold record_results, bind.
  destruct (get_player_titles_and_time player_one player_two s)
    as [[[[[t1 t2] m1] m2]|e] s1] eqn:Htitles;
    apply get_player_titles_and_time_cases in Htitles;
    destruct Htitles as [-> Hcases].
  - destruct (score_resolution b r1 r2 f1 f2) as [[res sc1] sc2].
    unfold modify. intros [= <- <-]. left. split; [reflexivity |].
    eexists. split; [reflexivity |]. cbn. repeat split.
  - intros [= <- <-]. right. split; [| reflexivity].
    destruct Hcases as [(titles & [=]) | (key & [= ->])].
    exists key. reflexivity.
Qed.

(** A pass writes no row; it raises only what a turn raises. *)
Lemma game_iteration_effects (player_one player_two : Player chess W) v s r s' :
  game_iteration player_one player_two v s = (r, s') ->
  csv_rows s' = csv_rows s
  /\ (forall e, r = Raise e -> e = KeyError "model").
Proof.
  unfold game_iteration, bind.
  destruct (play_turn player_one _ _ true s) as [[t1|e1] s1] eqn:Ht1;
    apply play_turn_effects in Ht1; destruct Ht1 as [Hrows1 Hraise1].
  - destruct (stops_after_turn_one _).
    { intros [= <- <-]. split; [exact Hrows1 | discriminate]. }
    destruct (play_turn player_two _ _ false s1) as [[t2|e2] s2] eqn:Ht2;
      apply play_turn_effects in Ht2; destruct Ht2 as [Hrows2 Hraise2].
    + destruct (stops_after_turn_two _); [| destruct (MAX_MOVES <? _)];
        intros [= <- <-]; (split; [congruence | discriminate]).
    + intros [= <- <-]. split; [congruence |].
      intros e [= <-]. apply (Hraise2 e2). reflexivity.
  - intros [= <- <-]. split; [exact Hrows1 |].
    intros e [= <-]. apply (Hraise1 e1). reflexivity.
Qed.

Lemma game_loop_effects (player_one player_two : Player chess W) :
  forall fuel v s r s',
    game_loop fuel player_one player_two v s = (r, s') ->
    csv_rows s' = csv_rows s
    /\ (forall e, r = Raise e -> e = KeyError "model").
Proof.
  induction fuel as [|fuel IH]; intros v s r s' Hrun; cbn [game_loop] in Hrun.
  - destruct (is_game_over chess (board v)); injection Hrun as <- <-;
      (split; [reflexivity | discriminate]).
  - destruct (is_game_over chess (board v)).
    { injection Hrun as <- <-. split; [reflexivity | discriminate]. }
    unfold bind in Hrun.
    destruct (game_iteration player_one player_two v s) as [[f|e] s1] eqn:Hiter;
      apply game_iteration_effects in Hiter; destruct Hiter as [Hrows Hraise].
    + destruct f as [v1 | v1].
      * injection Hrun as <- <-. split; [exact Hrows | discriminate].
      * apply IH in Hrun. destruct Hrun as [Hrows' Hraise'].
        split; [congruence | exact Hraise'].
    + injection Hrun as <- <-. split; [exact Hrows |].
      intros e0 [= <-]. apply (Hraise e). reflexivity.
Qed.

Local Open Scope string_scope.

(** The loop only appends to the transcript. *)
Lemma game_loop_appends (player_one player_two : Player chess W)
    fuel v s v' s' :
  game_loop fuel player_one player_two v s = (Ret (Some v'), s') ->
  exists suffix, game_state v' = game_state v ++ suffix.
Proof.
  apply (game_loop_induction player_one player_two (fun _ => True)
           (fun v0 v1 => exists suffix, game_state v1 = game_state v0 ++ suffix)).
  - intros v0 _. exists "". symmetry. apply str_app_nil_r.
  - intros v0 s0 f s1 _ _ Hiter.
    assert (Hpass : exists suffix,
              game_state (flow_vars f) = game_state v0 ++ suffix).
    { apply game_iteration_inv in Hiter.
      destruct Hiter as (t1 & s2 & Ht1 & Hrest).
      assert (Hone : exists suffix,
                turn_game_state t1 = game_state v0 ++ suffix).
      { apply play_turn_cases in Ht1. rewrite begin_full_move_text in Ht1.
        destruct Ht1 as [(text & uci & _ & _ & _ & Hg & _) | (_ & Hg & _)];
          rewrite Hg; eexists; [apply str_app_assoc | reflexivity]. }
      destruct Hone as (suffix1 & Hone).
      destruct Hrest as [(_ & -> & _) | (_ & t2 & Ht2 & ->)].
      - exists suffix1. exact Hone.
      - cbn zeta. rewrite flow_vars_choice.
        cbn [after_turn_two game_state].
        apply play_turn_cases in Ht2. cbn [after_turn_one game_state] in Ht2.
        destruct Ht2 as [(text & uci & _ & _ & _ & Hg & _) | (_ & Hg & _)];
          rewrite Hg, Hone; eexists; [apply str_app_assoc | reflexivity]. }
    destruct Hpass as (suffix & Hpass).
    destruct f as [v1 | v1]; cbn [flow_vars] in Hpass.
    + exists suffix. exact Hpass.
    + split; [exact I |]. intros v2 (suffix' & Hrest).
      exists (suffix ++ suffix'). rewrite Hrest, Hpass. apply str_app_assoc.
  - exact I.
Qed.

End Batches.

